(** * IRISC on-board software: PID controller, mode registry, gyroscope poller

    A shallow embedding of [pid.c], [mode.c] and [gyroscope.c] and the
    properties of their control step, gain store, mode registry and
    datagram decoding. *)

From Stdlib Require Import ZArith QArith Qabs Qround Lqa Lia Bool List Floats.
Import ListNotations.

(** ** C doubles

    A C [double] is idealised as an exact rational extended with the
    special values of IEEE 754: the two infinities and NaN.  Finite
    results are exact: rounding and overflow are not modelled, nor is
    the sign of zero (every zero divisor behaves as [+0]).  The special
    values follow the IEEE rules, so that [x / 0] is an infinity or NaN
    and every comparison with NaN is false, as in the compiled code.
    Comparisons, negation, [fabs] and assignments are exact in binary64
    too; where the rounding of a sum, product or quotient decides, the
    binary64 embedding [Pid64] below is the one to use. *)
Module IEEE.

Inductive double : Type :=
| Fin (q : Q)
| PInf
| NInf
| NaN.

Definition Qltb (a b : Q) : bool := negb (Qle_bool b a).
Definition Qis0 (a : Q) : bool := Qeq_bool a 0.

(** The infinity with the sign of [q], NaN when [q] is zero. *)
Definition inf_signed (q : Q) (pos : double) (neg : double) : double :=
  if Qis0 q then NaN else if Qltb 0 q then pos else neg.

Definition dneg (a : double) : double :=
  match a with
  | Fin q => Fin (- q)
  | PInf => NInf
  | NInf => PInf
  | NaN => NaN
  end.

Definition dadd (a b : double) : double :=
  match a, b with
  | NaN, _ | _, NaN => NaN
  | Fin x, Fin y => Fin (x + y)
  | PInf, NInf | NInf, PInf => NaN
  | PInf, _ | _, PInf => PInf
  | NInf, _ | _, NInf => NInf
  end.

Definition dsub (a b : double) : double := dadd a (dneg b).

Definition dmul (a b : double) : double :=
  match a, b with
  | NaN, _ | _, NaN => NaN
  | Fin x, Fin y => Fin (x * y)
  | Fin x, PInf | PInf, Fin x => inf_signed x PInf NInf
  | Fin x, NInf | NInf, Fin x => inf_signed x NInf PInf
  | PInf, PInf | NInf, NInf => PInf
  | PInf, NInf | NInf, PInf => NInf
  end.

Definition ddiv (a b : double) : double :=
  match a, b with
  | NaN, _ | _, NaN => NaN
  | Fin x, Fin y => if Qis0 y then inf_signed x PInf NInf else Fin (x / y)
  | Fin _, (PInf | NInf) => Fin 0
  | PInf, Fin y => if Qltb y 0 then NInf else PInf
  | NInf, Fin y => if Qltb y 0 then PInf else NInf
  | (PInf | NInf), (PInf | NInf) => NaN
  end.

Definition fabs (a : double) : double :=
  match a with
  | Fin q => Fin (Qabs q)
  | PInf | NInf => PInf
  | NaN => NaN
  end.

(** [a < b]; false as soon as one side is NaN. *)
Definition dlt (a b : double) : bool :=
  match a, b with
  | NaN, _ | _, NaN => false
  | Fin x, Fin y => Qltb x y
  | NInf, (Fin _ | PInf) => true
  | Fin _, PInf => true
  | _, _ => false
  end.

(** [a > b]. *)
Definition dgt (a b : double) : bool := dlt b a.

(** [a <= b], used in statements only. *)
Definition dle (a b : double) : bool :=
  match a, b with
  | NaN, _ | _, NaN => false
  | Fin x, Fin y => Qle_bool x y
  | NInf, _ => true
  | _, PInf => true
  | _, _ => false
  end.

(** Equality of doubles as C's [==] sees finite values: the rationals
    are compared by value, not by representation. *)
Definition deq (a b : double) : Prop :=
  match a, b with
  | Fin x, Fin y => x == y
  | PInf, PInf | NInf, NInf => True
  | _, _ => False
  end.

Definition is_finite (a : double) : bool :=
  match a with Fin _ => true | _ => false end.

(** [lround]: nearest integer, halves away from zero.  The result is a
    C [long]; outside its range, and on infinities and NaN, C leaves
    the value unspecified ([None]). *)
Definition Qlround (q : Q) : Z :=
  if Qle_bool 0 q then Qfloor (q + (1 # 2)) else (- Qfloor (- q + (1 # 2)))%Z.

Definition LONG_MAX : Z := 9223372036854775807.

Definition lround (a : double) : option Z :=
  match a with
  | Fin q =>
      let r := Qlround q in
      if ((- LONG_MAX - 1 <=? r) && (r <=? LONG_MAX))%Z then Some r else None
  | _ => None
  end.

Declare Scope double_scope.
Delimit Scope double_scope with dbl.
Bind Scope double_scope with double.
Infix "+" := dadd : double_scope.
Infix "-" := dsub : double_scope.
Infix "*" := dmul : double_scope.
Infix "/" := ddiv : double_scope.
Notation "- x" := (dneg x) : double_scope.
Infix "<?" := dlt : double_scope.
Infix ">?" := dgt (at level 70) : double_scope.
Infix "<=?" := dle : double_scope.
Infix "==" := deq : double_scope.

End IEEE.
Export IEEE.

(** The two status macros of [global_utils.h]; only their being
    distinct matters here. *)
Inductive status_t : Type := SUCCESS | FAILURE.

(** ** The PID component ([pid.c])

    The statics of the file are gathered in records and threaded
    through the functions, one call at a time; the mutexes that guard
    them are left out here and have a model of their own, [PidLocks].
    The macros of [gimbal.h] and [control_sys.h] are the section's
    variables. *)
Module Pid.

Local Open Scope double_scope.

Record pid_values_t : Type := {
  kp : double;
  ki : double;
  kd : double
}.

Record control_variables_t : Type := {
  current_position : double;
  target_position : double;
  position_error : double;
  derivative : double;
  integral : double;
  pid_output : double;
  time_in_seconds : double
}.

Record telescope_att_t : Type := { att_az : double; att_alt : double }.

(** The step counts are [None] where [lround] is unspecified. *)
Record motor_step_t : Type := { az : option Z; alt : option Z }.

(** The four stored gain sets and the two active ones. *)
Record gain_store : Type := {
  current_az_pid_values : pid_values_t;
  current_alt_pid_values : pid_values_t;
  stab_az_pid_values : pid_values_t;
  stab_alt_pid_values : pid_values_t;
  track_az_pid_values : pid_values_t;
  track_alt_pid_values : pid_values_t
}.

(** The statics written by [init_pid] only. *)
Record pid_limits : Type := {
  step_per_deg : double;
  max_motor_ang : double;
  max_change_rate : double
}.

(** The statics a control step works on. *)
Record pid_vars : Type := {
  az_prev_control_vars : control_variables_t;
  az_current_control_vars : control_variables_t;
  alt_prev_control_vars : control_variables_t;
  alt_current_control_vars : control_variables_t;
  sim_time : double;
  sim_start : double;
  threshold : Z;
  first_iteration : bool
}.

Record pid_state : Type := {
  gains : gain_store;
  limits : pid_limits;
  vars : pid_vars
}.

(** One line of [pid.log], as passed to [logging_csv]. *)
Record pid_log_line : Type := {
  log_current_position : double;
  log_position_error : double;
  log_target_position : double;
  log_proportional : double;
  log_integral : double;
  log_derivative : double;
  log_pid_output : double;
  log_threshold : Z;
  log_motor_az : option Z;
  log_motor_alt : option Z
}.

(** *** Field assignments *)

Definition set_current_position (x : double) (c : control_variables_t) :=
  Build_control_variables_t x (target_position c) (position_error c)
    (derivative c) (integral c) (pid_output c) (time_in_seconds c).
Definition set_target_position (x : double) (c : control_variables_t) :=
  Build_control_variables_t (current_position c) x (position_error c)
    (derivative c) (integral c) (pid_output c) (time_in_seconds c).
Definition set_position_error (x : double) (c : control_variables_t) :=
  Build_control_variables_t (current_position c) (target_position c) x
    (derivative c) (integral c) (pid_output c) (time_in_seconds c).
Definition set_derivative (x : double) (c : control_variables_t) :=
  Build_control_variables_t (current_position c) (target_position c)
    (position_error c) x (integral c) (pid_output c) (time_in_seconds c).
Definition set_integral (x : double) (c : control_variables_t) :=
  Build_control_variables_t (current_position c) (target_position c)
    (position_error c) (derivative c) x (pid_output c) (time_in_seconds c).
Definition set_pid_output (x : double) (c : control_variables_t) :=
  Build_control_variables_t (current_position c) (target_position c)
    (position_error c) (derivative c) (integral c) x (time_in_seconds c).
Definition set_time_in_seconds (x : double) (c : control_variables_t) :=
  Build_control_variables_t (current_position c) (target_position c)
    (position_error c) (derivative c) (integral c) (pid_output c) x.

Definition set_az_prev (c : control_variables_t) (v : pid_vars) :=
  Build_pid_vars c (az_current_control_vars v) (alt_prev_control_vars v)
    (alt_current_control_vars v) (sim_time v) (sim_start v) (threshold v)
    (first_iteration v).
Definition set_az_current (c : control_variables_t) (v : pid_vars) :=
  Build_pid_vars (az_prev_control_vars v) c (alt_prev_control_vars v)
    (alt_current_control_vars v) (sim_time v) (sim_start v) (threshold v)
    (first_iteration v).
Definition set_alt_prev (c : control_variables_t) (v : pid_vars) :=
  Build_pid_vars (az_prev_control_vars v) (az_current_control_vars v) c
    (alt_current_control_vars v) (sim_time v) (sim_start v) (threshold v)
    (first_iteration v).
Definition set_alt_current (c : control_variables_t) (v : pid_vars) :=
  Build_pid_vars (az_prev_control_vars v) (az_current_control_vars v)
    (alt_prev_control_vars v) c (sim_time v) (sim_start v) (threshold v)
    (first_iteration v).
Definition set_sim_time (x : double) (v : pid_vars) :=
  Build_pid_vars (az_prev_control_vars v) (az_current_control_vars v)
    (alt_prev_control_vars v) (alt_current_control_vars v) x (sim_start v)
    (threshold v) (first_iteration v).
Definition set_sim_start (x : double) (v : pid_vars) :=
  Build_pid_vars (az_prev_control_vars v) (az_current_control_vars v)
    (alt_prev_control_vars v) (alt_current_control_vars v) (sim_time v) x
    (threshold v) (first_iteration v).
Definition set_threshold (t : Z) (v : pid_vars) :=
  Build_pid_vars (az_prev_control_vars v) (az_current_control_vars v)
    (alt_prev_control_vars v) (alt_current_control_vars v) (sim_time v)
    (sim_start v) t (first_iteration v).
Definition set_first_iteration (b : bool) (v : pid_vars) :=
  Build_pid_vars (az_prev_control_vars v) (az_current_control_vars v)
    (alt_prev_control_vars v) (alt_current_control_vars v) (sim_time v)
    (sim_start v) (threshold v) b.

Definition set_current_az (p : pid_values_t) (g : gain_store) :=
  Build_gain_store p (current_alt_pid_values g) (stab_az_pid_values g)
    (stab_alt_pid_values g) (track_az_pid_values g) (track_alt_pid_values g).
Definition set_current_alt (p : pid_values_t) (g : gain_store) :=
  Build_gain_store (current_az_pid_values g) p (stab_az_pid_values g)
    (stab_alt_pid_values g) (track_az_pid_values g) (track_alt_pid_values g).
Definition set_stab_az (p : pid_values_t) (g : gain_store) :=
  Build_gain_store (current_az_pid_values g) (current_alt_pid_values g) p
    (stab_alt_pid_values g) (track_az_pid_values g) (track_alt_pid_values g).
Definition set_stab_alt (p : pid_values_t) (g : gain_store) :=
  Build_gain_store (current_az_pid_values g) (current_alt_pid_values g)
    (stab_az_pid_values g) p (track_az_pid_values g) (track_alt_pid_values g).
Definition set_track_az (p : pid_values_t) (g : gain_store) :=
  Build_gain_store (current_az_pid_values g) (current_alt_pid_values g)
    (stab_az_pid_values g) (stab_alt_pid_values g) p (track_alt_pid_values g).
Definition set_track_alt (p : pid_values_t) (g : gain_store) :=
  Build_gain_store (current_az_pid_values g) (current_alt_pid_values g)
    (stab_az_pid_values g) (stab_alt_pid_values g) (track_az_pid_values g) p.

(** *** Gain management *)

(** [change_pid_values]: the active gains of one motor, until the next
    mode change. *)
Definition change_pid_values (motor_id : Z) (new_p new_i new_d : double)
    (g : gain_store) : gain_store * Z :=
  if (motor_id =? 1)%Z then
    (set_current_az {| kp := new_p; ki := new_i; kd := new_d |} g, 0%Z)
  else if (motor_id =? 2)%Z then
    (set_current_alt {| kp := new_p; ki := new_i; kd := new_d |} g, 0%Z)
  else (g, 1%Z).

(** [change_mode_pid_values]: the stored gains of one motor and mode. *)
Definition change_mode_pid_values (motor_id mode_id : Z)
    (new_p new_i new_d : double) (g : gain_store) : gain_store * Z :=
  let p := {| kp := new_p; ki := new_i; kd := new_d |} in
  if (motor_id =? 1)%Z then
    if (mode_id =? 1)%Z then (set_track_az p g, 0%Z)
    else if (mode_id =? 2)%Z then (set_stab_az p g, 0%Z)
    else (g, 1%Z)
  else if (motor_id =? 2)%Z then
    if (mode_id =? 1)%Z then (set_track_alt p g, 0%Z)
    else if (mode_id =? 2)%Z then (set_stab_alt p g, 0%Z)
    else (g, 1%Z)
  else (g, 1%Z).

(** [change_stabilization_mode]: 1 for stabilization, 0 for tracking. *)
Definition change_stabilization_mode (on_off : Z) (g : gain_store)
    : gain_store * Z :=
  if (on_off =? 1)%Z then
    (set_current_alt (stab_alt_pid_values g)
       (set_current_az (stab_az_pid_values g) g), 0%Z)
  else if (on_off =? 0)%Z then
    (set_current_alt (track_alt_pid_values g)
       (set_current_az (track_az_pid_values g) g), 0%Z)
  else (g, 1%Z).

(** [pid_reset]: the integral part and the position error, previous and
    current, of both axes. *)
Definition pid_reset (v : pid_vars) : pid_vars :=
  let z := fun c => set_integral (Fin 0) (set_position_error (Fin 0) c) in
  set_alt_current (z (alt_current_control_vars v))
    (set_alt_prev (z (alt_prev_control_vars v))
       (set_az_current (z (az_current_control_vars v))
          (set_az_prev (z (az_prev_control_vars v)) v))).

(** *** The control step *)

Section ControlStep.

(** [STEPS_PER_REVOLUTION], [MICRO_STEP_FACTOR] and [GEARBOX_RATIO]
    come from [gimbal.h], [CONTROL_SYS_WAIT] (nanoseconds) from
    [control_sys.h]. *)
Variables STEPS_PER_REVOLUTION MICRO_STEP_FACTOR GEARBOX_RATIO : Q.
Variable CONTROL_SYS_WAIT : Q.

Definition stabilization_timestep : double :=
  Fin CONTROL_SYS_WAIT / Fin 1000000000.

(** The statics as the loader leaves them. *)
Definition zero_vars : control_variables_t :=
  Build_control_variables_t (Fin 0) (Fin 0) (Fin 0) (Fin 0) (Fin 0) (Fin 0)
    (Fin 0).

Definition zero_gains : pid_values_t :=
  {| kp := Fin 0; ki := Fin 0; kd := Fin 0 |}.

Definition static_state : pid_state :=
  {| gains :=
       {| current_az_pid_values := zero_gains;
          current_alt_pid_values := zero_gains;
          stab_az_pid_values :=
            {| kp := Fin 0.0673; ki := Fin 0.05; kd := Fin 0.0152 |};
          stab_alt_pid_values :=
            {| kp := Fin 0.0673; ki := Fin 0.05; kd := Fin 0.0152 |};
          track_az_pid_values :=
            {| kp := Fin 0.1; ki := Fin 0.01; kd := Fin 1 |};
          track_alt_pid_values :=
            {| kp := Fin 1; ki := Fin 0.2; kd := Fin 0 |} |};
     limits :=
       {| step_per_deg := Fin 0; max_motor_ang := Fin 0;
          max_change_rate := Fin 0 |};
     vars :=
       {| az_prev_control_vars := zero_vars;
          az_current_control_vars := zero_vars;
          alt_prev_control_vars := zero_vars;
          alt_current_control_vars := zero_vars;
          sim_time := Fin 0; sim_start := Fin 0;
          threshold := 0; first_iteration := true |} |}.

(** [init_pid]; the log file it opens is not represented. *)
Definition init_pid (s : pid_state) : pid_state * status_t :=
  let clear := fun c =>
    set_pid_output (Fin 0) (set_integral (Fin 0) (set_derivative (Fin 0)
      (set_position_error (Fin 0) (set_target_position (Fin 0)
        (set_current_position (Fin 0) c))))) in
  let v := set_alt_prev (clear (alt_prev_control_vars (vars s)))
             (set_az_prev (clear (az_prev_control_vars (vars s))) (vars s)) in
  let spd := Fin STEPS_PER_REVOLUTION * Fin MICRO_STEP_FACTOR
             * Fin GEARBOX_RATIO / Fin 360 in
  let l := {| step_per_deg := spd;
              max_motor_ang := Fin 35 / spd;
              max_change_rate := Fin 5 / spd |} in
  ({| gains := fst (change_stabilization_mode 0 (gains s));
      limits := l; vars := v |}, SUCCESS).

(** [motor_control_step]: the PID formula for one axis. *)
Definition motor_control_step (current_pid_values : pid_values_t)
    (prev_vars current_vars : control_variables_t) : control_variables_t :=
  let c1 := set_position_error
              (target_position current_vars - current_position current_vars)
              current_vars in
  let c2 := set_integral
              (integral prev_vars + position_error c1 * stabilization_timestep)
              c1 in
  let c3 := set_derivative
              ((position_error c2 - position_error prev_vars)
               / stabilization_timestep) c2 in
  set_pid_output
    (kp current_pid_values * position_error c3
     + ki current_pid_values * integral c3
     + kd current_pid_values * derivative c3) c3.

(** The inputs of a step: the attitude, the tracking angles returned by
    [get_tracking_angles] and the two readings of [get_current_time]. *)
Record step_inputs : Type := {
  cur_att : telescope_att_t;
  tracking_az : double;
  tracking_alt : double;
  time_first : double;
  time_now : double
}.

(** Values from the Kalman filter and the tracking subsystem, further
    initialization and time stamps. *)
Definition pid_read_inputs (i : step_inputs) (v : pid_vars) : pid_vars :=
  let v := set_az_current
             (set_target_position (tracking_az i)
                (set_current_position (att_az (cur_att i))
                   (az_current_control_vars v))) v in
  let v := set_alt_current
             (set_target_position (tracking_alt i)
                (set_current_position (att_alt (cur_att i))
                   (alt_current_control_vars v))) v in
  let v :=
    if first_iteration v then
      let v := set_sim_start (time_first i) v in
      let v := set_az_prev
                 (set_position_error (Fin 0)
                    (set_time_in_seconds (sim_start v)
                       (az_prev_control_vars v))) v in
      let v := set_alt_prev
                 (set_position_error (Fin 0)
                    (set_time_in_seconds (sim_start v)
                       (alt_prev_control_vars v))) v in
      set_first_iteration false v
    else v in
  let v := set_sim_time (time_now i) v in
  let v := set_az_current
             (set_time_in_seconds (sim_time v - sim_start v)
                (az_current_control_vars v)) v in
  set_alt_current
    (set_time_in_seconds (sim_time v - sim_start v)
       (alt_current_control_vars v)) v.

(** Main algorithm. *)
Definition pid_main (g : gain_store) (v : pid_vars) : pid_vars :=
  let v := set_az_current
             (motor_control_step (current_az_pid_values g)
                (az_prev_control_vars v) (az_current_control_vars v)) v in
  set_alt_current
    (motor_control_step (current_alt_pid_values g)
       (alt_prev_control_vars v) (alt_current_control_vars v)) v.

(** Anti windup of one axis, against the gain [k] the source divides
    by. *)
Definition anti_windup (max_ang k : double) (c : control_variables_t)
    : control_variables_t :=
  if integral c >? max_ang / k then set_integral (max_ang / k) c
  else if integral c <? - max_ang / k then set_integral (- max_ang / k) c
  else c.

(** Azimuth anti windup, then altitude anti windup: both blocks of the
    source divide by [current_az_pid_values.ki]. *)
Definition pid_anti_windup (g : gain_store) (l : pid_limits) (v : pid_vars)
    : pid_vars :=
  let v := set_az_current
             (anti_windup (max_motor_ang l) (ki (current_az_pid_values g))
                (az_current_control_vars v)) v in
  set_alt_current
    (anti_windup (max_motor_ang l) (ki (current_az_pid_values g))
       (alt_current_control_vars v)) v.

(** Pid output change rate limit of one axis. *)
Definition rate_limit (max_rate : double) (prev c : control_variables_t)
    : control_variables_t :=
  if fabs (pid_output c - pid_output prev) >? max_rate then
    if pid_output c >? pid_output prev
    then set_pid_output (pid_output prev + max_rate) c
    else set_pid_output (pid_output prev - max_rate) c
  else c.

Definition pid_rate_limit (l : pid_limits) (v : pid_vars) : pid_vars :=
  let v := set_az_current
             (rate_limit (max_change_rate l) (az_prev_control_vars v)
                (az_current_control_vars v)) v in
  set_alt_current
    (rate_limit (max_change_rate l) (alt_prev_control_vars v)
       (alt_current_control_vars v)) v.

(** Output saturation: azimuth tags [threshold], altitude does not. *)
Definition pid_saturation (l : pid_limits) (v : pid_vars) : pid_vars :=
  let v := set_threshold 0 v in
  let v :=
    if pid_output (az_current_control_vars v) >? max_motor_ang l then
      set_az_current
        (set_pid_output (max_motor_ang l) (az_current_control_vars v))
        (set_threshold 1 v)
    else if pid_output (az_current_control_vars v) <? - max_motor_ang l then
      set_az_current
        (set_pid_output (- max_motor_ang l) (az_current_control_vars v))
        (set_threshold 2 v)
    else v in
  if pid_output (alt_current_control_vars v) >? max_motor_ang l then
    set_alt_current
      (set_pid_output (max_motor_ang l) (alt_current_control_vars v)) v
  else if pid_output (alt_current_control_vars v) <? - max_motor_ang l then
    set_alt_current
      (set_pid_output (- max_motor_ang l) (alt_current_control_vars v)) v
  else v.

(** Convert angle output to steps for output. *)
Definition pid_steps (l : pid_limits) (v : pid_vars) : motor_step_t :=
  {| az := lround (step_per_deg l * pid_output (az_current_control_vars v));
     alt := lround (step_per_deg l * pid_output (alt_current_control_vars v))
  |}.

(** The zeroing of the output when the position error is small. *)
Definition deadband (c : control_variables_t) : control_variables_t :=
  if fabs (position_error c) <? Fin 0.02 then set_pid_output (Fin 0) c else c.

Definition pid_deadband (v : pid_vars) : pid_vars :=
  let v := set_az_current (deadband (az_current_control_vars v)) v in
  set_alt_current (deadband (alt_current_control_vars v)) v.

Definition pid_log (g : gain_store) (v : pid_vars) (motor_out : motor_step_t)
    : pid_log_line :=
  let c := az_current_control_vars v in
  {| log_current_position := current_position c;
     log_position_error := position_error c;
     log_target_position := target_position c;
     log_proportional := position_error c * kp (current_az_pid_values g);
     log_integral := integral c * ki (current_az_pid_values g);
     log_derivative := derivative c * kd (current_az_pid_values g);
     log_pid_output := pid_output c;
     log_threshold := threshold v;
     log_motor_az := az motor_out;
     log_motor_alt := alt motor_out |}.

(** Current becomes previous. *)
Definition pid_commit (v : pid_vars) : pid_vars :=
  set_alt_prev (alt_current_control_vars v)
    (set_az_prev (az_current_control_vars v) v).

(** The statics at the end of each stage of [pid_update]. *)
Definition after_main (s : pid_state) (i : step_inputs) : pid_vars :=
  pid_main (gains s) (pid_read_inputs i (vars s)).
Definition after_anti_windup (s : pid_state) (i : step_inputs) : pid_vars :=
  pid_anti_windup (gains s) (limits s) (after_main s i).
Definition after_rate_limit (s : pid_state) (i : step_inputs) : pid_vars :=
  pid_rate_limit (limits s) (after_anti_windup s i).
Definition after_saturation (s : pid_state) (i : step_inputs) : pid_vars :=
  pid_saturation (limits s) (after_rate_limit s i).
Definition after_deadband (s : pid_state) (i : step_inputs) : pid_vars :=
  pid_deadband (after_saturation s i).

(** [pid_update]: the new statics, [motor_out] and the line logged. *)
Definition pid_update (s : pid_state) (i : step_inputs)
    : pid_state * motor_step_t * pid_log_line :=
  let motor_out := pid_steps (limits s) (after_saturation s i) in
  let v := after_deadband s i in
  ({| gains := gains s; limits := limits s; vars := pid_commit v |},
   motor_out,
   pid_log (gains s) v motor_out).

End ControlStep.

End Pid.

(** ** The PID component at binary64 precision

    The functions of [Pid] once more, with C's [double] as the
    primitive binary64 floats: every operation rounds to nearest, can
    overflow, and knows both zeros, as the compiled code does where
    products and sums are not fused.  It is the embedding to turn to
    where rounding decides. *)
Module Pid64.

Local Open Scope float_scope.
Local Set Warnings "-inexact-float".

Notation "x >? y" := (PrimFloat.ltb y x) (at level 70, only parsing)
  : float_scope.

(** [lround]: nearest integer, halves away from zero; [None] where C
    leaves the result unspecified. *)
Definition lround (a : float) : option Z :=
  match Prim2SF a with
  | S754_zero _ => Some 0%Z
  | S754_finite s m e =>
      let n :=
        if (0 <=? e)%Z then (Z.pos m * 2 ^ e)%Z
        else ((Z.pos m + 2 ^ (- e - 1)) / 2 ^ (- e))%Z in
      let r := if s then (- n)%Z else n in
      if ((- LONG_MAX - 1 <=? r) && (r <=? LONG_MAX))%Z then Some r else None
  | S754_infinity _ | S754_nan => None
  end.

Record pid_values_t : Type := {
  kp : float;
  ki : float;
  kd : float
}.

Record control_variables_t : Type := {
  current_position : float;
  target_position : float;
  position_error : float;
  derivative : float;
  integral : float;
  pid_output : float;
  time_in_seconds : float
}.

Record telescope_att_t : Type := { att_az : float; att_alt : float }.

(** The step counts are [None] where [lround] is unspecified. *)
Record motor_step_t : Type := { az : option Z; alt : option Z }.

(** The four stored gain sets and the two active ones. *)
Record gain_store : Type := {
  current_az_pid_values : pid_values_t;
  current_alt_pid_values : pid_values_t;
  stab_az_pid_values : pid_values_t;
  stab_alt_pid_values : pid_values_t;
  track_az_pid_values : pid_values_t;
  track_alt_pid_values : pid_values_t
}.

(** The statics written by [init_pid] only. *)
Record pid_limits : Type := {
  step_per_deg : float;
  max_motor_ang : float;
  max_change_rate : float
}.

(** The statics a control step works on. *)
Record pid_vars : Type := {
  az_prev_control_vars : control_variables_t;
  az_current_control_vars : control_variables_t;
  alt_prev_control_vars : control_variables_t;
  alt_current_control_vars : control_variables_t;
  sim_time : float;
  sim_start : float;
  threshold : Z;
  first_iteration : bool
}.

Record pid_state : Type := {
  gains : gain_store;
  limits : pid_limits;
  vars : pid_vars
}.

(** One line of [pid.log], as passed to [logging_csv]. *)
Record pid_log_line : Type := {
  log_current_position : float;
  log_position_error : float;
  log_target_position : float;
  log_proportional : float;
  log_integral : float;
  log_derivative : float;
  log_pid_output : float;
  log_threshold : Z;
  log_motor_az : option Z;
  log_motor_alt : option Z
}.

(** *** Field assignments *)

Definition set_current_position (x : float) (c : control_variables_t) :=
  Build_control_variables_t x (target_position c) (position_error c)
    (derivative c) (integral c) (pid_output c) (time_in_seconds c).
Definition set_target_position (x : float) (c : control_variables_t) :=
  Build_control_variables_t (current_position c) x (position_error c)
    (derivative c) (integral c) (pid_output c) (time_in_seconds c).
Definition set_position_error (x : float) (c : control_variables_t) :=
  Build_control_variables_t (current_position c) (target_position c) x
    (derivative c) (integral c) (pid_output c) (time_in_seconds c).
Definition set_derivative (x : float) (c : control_variables_t) :=
  Build_control_variables_t (current_position c) (target_position c)
    (position_error c) x (integral c) (pid_output c) (time_in_seconds c).
Definition set_integral (x : float) (c : control_variables_t) :=
  Build_control_variables_t (current_position c) (target_position c)
    (position_error c) (derivative c) x (pid_output c) (time_in_seconds c).
Definition set_pid_output (x : float) (c : control_variables_t) :=
  Build_control_variables_t (current_position c) (target_position c)
    (position_error c) (derivative c) (integral c) x (time_in_seconds c).
Definition set_time_in_seconds (x : float) (c : control_variables_t) :=
  Build_control_variables_t (current_position c) (target_position c)
    (position_error c) (derivative c) (integral c) (pid_output c) x.

Definition set_az_prev (c : control_variables_t) (v : pid_vars) :=
  Build_pid_vars c (az_current_control_vars v) (alt_prev_control_vars v)
    (alt_current_control_vars v) (sim_time v) (sim_start v) (threshold v)
    (first_iteration v).
Definition set_az_current (c : control_variables_t) (v : pid_vars) :=
  Build_pid_vars (az_prev_control_vars v) c (alt_prev_control_vars v)
    (alt_current_control_vars v) (sim_time v) (sim_start v) (threshold v)
    (first_iteration v).
Definition set_alt_prev (c : control_variables_t) (v : pid_vars) :=
  Build_pid_vars (az_prev_control_vars v) (az_current_control_vars v) c
    (alt_current_control_vars v) (sim_time v) (sim_start v) (threshold v)
    (first_iteration v).
Definition set_alt_current (c : control_variables_t) (v : pid_vars) :=
  Build_pid_vars (az_prev_control_vars v) (az_current_control_vars v)
    (alt_prev_control_vars v) c (sim_time v) (sim_start v) (threshold v)
    (first_iteration v).
Definition set_sim_time (x : float) (v : pid_vars) :=
  Build_pid_vars (az_prev_control_vars v) (az_current_control_vars v)
    (alt_prev_control_vars v) (alt_current_control_vars v) x (sim_start v)
    (threshold v) (first_iteration v).
Definition set_sim_start (x : float) (v : pid_vars) :=
  Build_pid_vars (az_prev_control_vars v) (az_current_control_vars v)
    (alt_prev_control_vars v) (alt_current_control_vars v) (sim_time v) x
    (threshold v) (first_iteration v).
Definition set_threshold (t : Z) (v : pid_vars) :=
  Build_pid_vars (az_prev_control_vars v) (az_current_control_vars v)
    (alt_prev_control_vars v) (alt_current_control_vars v) (sim_time v)
    (sim_start v) t (first_iteration v).
Definition set_first_iteration (b : bool) (v : pid_vars) :=
  Build_pid_vars (az_prev_control_vars v) (az_current_control_vars v)
    (alt_prev_control_vars v) (alt_current_control_vars v) (sim_time v)
    (sim_start v) (threshold v) b.

Definition set_current_az (p : pid_values_t) (g : gain_store) :=
  Build_gain_store p (current_alt_pid_values g) (stab_az_pid_values g)
    (stab_alt_pid_values g) (track_az_pid_values g) (track_alt_pid_values g).
Definition set_current_alt (p : pid_values_t) (g : gain_store) :=
  Build_gain_store (current_az_pid_values g) p (stab_az_pid_values g)
    (stab_alt_pid_values g) (track_az_pid_values g) (track_alt_pid_values g).
Definition set_stab_az (p : pid_values_t) (g : gain_store) :=
  Build_gain_store (current_az_pid_values g) (current_alt_pid_values g) p
    (stab_alt_pid_values g) (track_az_pid_values g) (track_alt_pid_values g).
Definition set_stab_alt (p : pid_values_t) (g : gain_store) :=
  Build_gain_store (current_az_pid_values g) (current_alt_pid_values g)
    (stab_az_pid_values g) p (track_az_pid_values g) (track_alt_pid_values g).
Definition set_track_az (p : pid_values_t) (g : gain_store) :=
  Build_gain_store (current_az_pid_values g) (current_alt_pid_values g)
    (stab_az_pid_values g) (stab_alt_pid_values g) p (track_alt_pid_values g).
Definition set_track_alt (p : pid_values_t) (g : gain_store) :=
  Build_gain_store (current_az_pid_values g) (current_alt_pid_values g)
    (stab_az_pid_values g) (stab_alt_pid_values g) (track_az_pid_values g) p.

(** *** Gain management *)

(** [change_pid_values]: the active gains of one motor, until the next
    mode change. *)
Definition change_pid_values (motor_id : Z) (new_p new_i new_d : float)
    (g : gain_store) : gain_store * Z :=
  if (motor_id =? 1)%Z then
    (set_current_az {| kp := new_p; ki := new_i; kd := new_d |} g, 0%Z)
  else if (motor_id =? 2)%Z then
    (set_current_alt {| kp := new_p; ki := new_i; kd := new_d |} g, 0%Z)
  else (g, 1%Z).

(** [change_mode_pid_values]: the stored gains of one motor and mode. *)
Definition change_mode_pid_values (motor_id mode_id : Z)
    (new_p new_i new_d : float) (g : gain_store) : gain_store * Z :=
  let p := {| kp := new_p; ki := new_i; kd := new_d |} in
  if (motor_id =? 1)%Z then
    if (mode_id =? 1)%Z then (set_track_az p g, 0%Z)
    else if (mode_id =? 2)%Z then (set_stab_az p g, 0%Z)
    else (g, 1%Z)
  else if (motor_id =? 2)%Z then
    if (mode_id =? 1)%Z then (set_track_alt p g, 0%Z)
    else if (mode_id =? 2)%Z then (set_stab_alt p g, 0%Z)
    else (g, 1%Z)
  else (g, 1%Z).

(** [change_stabilization_mode]: 1 for stabilization, 0 for tracking. *)
Definition change_stabilization_mode (on_off : Z) (g : gain_store)
    : gain_store * Z :=
  if (on_off =? 1)%Z then
    (set_current_alt (stab_alt_pid_values g)
       (set_current_az (stab_az_pid_values g) g), 0%Z)
  else if (on_off =? 0)%Z then
    (set_current_alt (track_alt_pid_values g)
       (set_current_az (track_az_pid_values g) g), 0%Z)
  else (g, 1%Z).

(** [pid_reset]: the integral part and the position error, previous and
    current, of both axes. *)
Definition pid_reset (v : pid_vars) : pid_vars :=
  let z := fun c => set_integral 0 (set_position_error 0 c) in
  set_alt_current (z (alt_current_control_vars v))
    (set_alt_prev (z (alt_prev_control_vars v))
       (set_az_current (z (az_current_control_vars v))
          (set_az_prev (z (az_prev_control_vars v)) v))).

(** *** The control step *)

Section ControlStep.

(** [STEPS_PER_REVOLUTION], [MICRO_STEP_FACTOR] and [GEARBOX_RATIO]
    come from [gimbal.h], [CONTROL_SYS_WAIT] (nanoseconds) from
    [control_sys.h]. *)
Variables STEPS_PER_REVOLUTION MICRO_STEP_FACTOR GEARBOX_RATIO : float.
Variable CONTROL_SYS_WAIT : float.

Definition stabilization_timestep : float :=
  CONTROL_SYS_WAIT / 1000000000.

(** The statics as the loader leaves them. *)
Definition zero_vars : control_variables_t :=
  Build_control_variables_t 0 0 0 0 0 0 0.

Definition zero_gains : pid_values_t :=
  {| kp := 0; ki := 0; kd := 0 |}.

Definition static_state : pid_state :=
  {| gains :=
       {| current_az_pid_values := zero_gains;
          current_alt_pid_values := zero_gains;
          stab_az_pid_values :=
            {| kp := 0.0673; ki := 0.05; kd := 0.0152 |};
          stab_alt_pid_values :=
            {| kp := 0.0673; ki := 0.05; kd := 0.0152 |};
          track_az_pid_values :=
            {| kp := 0.1; ki := 0.01; kd := 1 |};
          track_alt_pid_values :=
            {| kp := 1; ki := 0.2; kd := 0 |} |};
     limits :=
       {| step_per_deg := 0; max_motor_ang := 0;
          max_change_rate := 0 |};
     vars :=
       {| az_prev_control_vars := zero_vars;
          az_current_control_vars := zero_vars;
          alt_prev_control_vars := zero_vars;
          alt_current_control_vars := zero_vars;
          sim_time := 0; sim_start := 0;
          threshold := 0; first_iteration := true |} |}.

(** [init_pid]; the log file it opens is not represented. *)
Definition init_pid (s : pid_state) : pid_state * status_t :=
  let clear := fun c =>
    set_pid_output 0 (set_integral 0 (set_derivative 0
      (set_position_error 0 (set_target_position 0
        (set_current_position 0 c))))) in
  let v := set_alt_prev (clear (alt_prev_control_vars (vars s)))
             (set_az_prev (clear (az_prev_control_vars (vars s))) (vars s)) in
  let spd := STEPS_PER_REVOLUTION * MICRO_STEP_FACTOR
             * GEARBOX_RATIO / 360 in
  let l := {| step_per_deg := spd;
              max_motor_ang := 35 / spd;
              max_change_rate := 5 / spd |} in
  ({| gains := fst (change_stabilization_mode 0 (gains s));
      limits := l; vars := v |}, SUCCESS).

(** [motor_control_step]: the PID formula for one axis. *)
Definition motor_control_step (current_pid_values : pid_values_t)
    (prev_vars current_vars : control_variables_t) : control_variables_t :=
  let c1 := set_position_error
              (target_position current_vars - current_position current_vars)
              current_vars in
  let c2 := set_integral
              (integral prev_vars + position_error c1 * stabilization_timestep)
              c1 in
  let c3 := set_derivative
              ((position_error c2 - position_error prev_vars)
               / stabilization_timestep) c2 in
  set_pid_output
    (kp current_pid_values * position_error c3
     + ki current_pid_values * integral c3
     + kd current_pid_values * derivative c3) c3.

(** The inputs of a step: the attitude, the tracking angles returned by
    [get_tracking_angles] and the two readings of [get_current_time]. *)
Record step_inputs : Type := {
  cur_att : telescope_att_t;
  tracking_az : float;
  tracking_alt : float;
  time_first : float;
  time_now : float
}.

(** Values from the Kalman filter and the tracking subsystem, further
    initialization and time stamps. *)
Definition pid_read_inputs (i : step_inputs) (v : pid_vars) : pid_vars :=
  let v := set_az_current
             (set_target_position (tracking_az i)
                (set_current_position (att_az (cur_att i))
                   (az_current_control_vars v))) v in
  let v := set_alt_current
             (set_target_position (tracking_alt i)
                (set_current_position (att_alt (cur_att i))
                   (alt_current_control_vars v))) v in
  let v :=
    if first_iteration v then
      let v := set_sim_start (time_first i) v in
      let v := set_az_prev
                 (set_position_error 0
                    (set_time_in_seconds (sim_start v)
                       (az_prev_control_vars v))) v in
      let v := set_alt_prev
                 (set_position_error 0
                    (set_time_in_seconds (sim_start v)
                       (alt_prev_control_vars v))) v in
      set_first_iteration false v
    else v in
  let v := set_sim_time (time_now i) v in
  let v := set_az_current
             (set_time_in_seconds (sim_time v - sim_start v)
                (az_current_control_vars v)) v in
  set_alt_current
    (set_time_in_seconds (sim_time v - sim_start v)
       (alt_current_control_vars v)) v.

(** Main algorithm. *)
Definition pid_main (g : gain_store) (v : pid_vars) : pid_vars :=
  let v := set_az_current
             (motor_control_step (current_az_pid_values g)
                (az_prev_control_vars v) (az_current_control_vars v)) v in
  set_alt_current
    (motor_control_step (current_alt_pid_values g)
       (alt_prev_control_vars v) (alt_current_control_vars v)) v.

(** Anti windup of one axis, against the gain [k] the source divides
    by. *)
Definition anti_windup (max_ang k : float) (c : control_variables_t)
    : control_variables_t :=
  if integral c >? max_ang / k then set_integral (max_ang / k) c
  else if integral c <? - max_ang / k then set_integral (- max_ang / k) c
  else c.

(** Azimuth anti windup, then altitude anti windup: both blocks of the
    source divide by [current_az_pid_values.ki]. *)
Definition pid_anti_windup (g : gain_store) (l : pid_limits) (v : pid_vars)
    : pid_vars :=
  let v := set_az_current
             (anti_windup (max_motor_ang l) (ki (current_az_pid_values g))
                (az_current_control_vars v)) v in
  set_alt_current
    (anti_windup (max_motor_ang l) (ki (current_az_pid_values g))
       (alt_current_control_vars v)) v.

(** Pid output change rate limit of one axis. *)
Definition rate_limit (max_rate : float) (prev c : control_variables_t)
    : control_variables_t :=
  if abs (pid_output c - pid_output prev) >? max_rate then
    if pid_output c >? pid_output prev
    then set_pid_output (pid_output prev + max_rate) c
    else set_pid_output (pid_output prev - max_rate) c
  else c.

Definition pid_rate_limit (l : pid_limits) (v : pid_vars) : pid_vars :=
  let v := set_az_current
             (rate_limit (max_change_rate l) (az_prev_control_vars v)
                (az_current_control_vars v)) v in
  set_alt_current
    (rate_limit (max_change_rate l) (alt_prev_control_vars v)
       (alt_current_control_vars v)) v.

(** Output saturation: azimuth tags [threshold], altitude does not. *)
Definition pid_saturation (l : pid_limits) (v : pid_vars) : pid_vars :=
  let v := set_threshold 0 v in
  let v :=
    if pid_output (az_current_control_vars v) >? max_motor_ang l then
      set_az_current
        (set_pid_output (max_motor_ang l) (az_current_control_vars v))
        (set_threshold 1 v)
    else if pid_output (az_current_control_vars v) <? - max_motor_ang l then
      set_az_current
        (set_pid_output (- max_motor_ang l) (az_current_control_vars v))
        (set_threshold 2 v)
    else v in
  if pid_output (alt_current_control_vars v) >? max_motor_ang l then
    set_alt_current
      (set_pid_output (max_motor_ang l) (alt_current_control_vars v)) v
  else if pid_output (alt_current_control_vars v) <? - max_motor_ang l then
    set_alt_current
      (set_pid_output (- max_motor_ang l) (alt_current_control_vars v)) v
  else v.

(** Convert angle output to steps for output. *)
Definition pid_steps (l : pid_limits) (v : pid_vars) : motor_step_t :=
  {| az := lround (step_per_deg l * pid_output (az_current_control_vars v));
     alt := lround (step_per_deg l * pid_output (alt_current_control_vars v))
  |}.

(** The zeroing of the output when the position error is small. *)
Definition deadband (c : control_variables_t) : control_variables_t :=
  if abs (position_error c) <? 0.02 then set_pid_output 0 c else c.

Definition pid_deadband (v : pid_vars) : pid_vars :=
  let v := set_az_current (deadband (az_current_control_vars v)) v in
  set_alt_current (deadband (alt_current_control_vars v)) v.

Definition pid_log (g : gain_store) (v : pid_vars) (motor_out : motor_step_t)
    : pid_log_line :=
  let c := az_current_control_vars v in
  {| log_current_position := current_position c;
     log_position_error := position_error c;
     log_target_position := target_position c;
     log_proportional := position_error c * kp (current_az_pid_values g);
     log_integral := integral c * ki (current_az_pid_values g);
     log_derivative := derivative c * kd (current_az_pid_values g);
     log_pid_output := pid_output c;
     log_threshold := threshold v;
     log_motor_az := az motor_out;
     log_motor_alt := alt motor_out |}.

(** Current becomes previous. *)
Definition pid_commit (v : pid_vars) : pid_vars :=
  set_alt_prev (alt_current_control_vars v)
    (set_az_prev (az_current_control_vars v) v).

(** The statics at the end of each stage of [pid_update]. *)
Definition after_main (s : pid_state) (i : step_inputs) : pid_vars :=
  pid_main (gains s) (pid_read_inputs i (vars s)).
Definition after_anti_windup (s : pid_state) (i : step_inputs) : pid_vars :=
  pid_anti_windup (gains s) (limits s) (after_main s i).
Definition after_rate_limit (s : pid_state) (i : step_inputs) : pid_vars :=
  pid_rate_limit (limits s) (after_anti_windup s i).
Definition after_saturation (s : pid_state) (i : step_inputs) : pid_vars :=
  pid_saturation (limits s) (after_rate_limit s i).
Definition after_deadband (s : pid_state) (i : step_inputs) : pid_vars :=
  pid_deadband (after_saturation s i).

(** [pid_update]: the new statics, [motor_out] and the line logged. *)
Definition pid_update (s : pid_state) (i : step_inputs)
    : pid_state * motor_step_t * pid_log_line :=
  let motor_out := pid_steps (limits s) (after_saturation s i) in
  let v := after_deadband s i in
  ({| gains := gains s; limits := limits s; vars := pid_commit v |},
   motor_out,
   pid_log (gains s) v motor_out).

End ControlStep.

End Pid64.

(** ** The mutexes of the PID component ([pid.c])

    [pid.c] guards its statics with four mutexes, which [Pid] leaves
    out.  Here are the lock and unlock calls of each function, in the
    order of the source and without the data they guard.  The mutexes
    are of the default kind ([PTHREAD_MUTEX_INITIALIZER]): locking one
    that is locked waits until it is unlocked, and unlocking frees it
    without a check of who locked it. *)
Module PidLocks.

Local Open Scope Z_scope.

Inductive mutex : Type :=
| az_pid_values_mutex
| alt_pid_values_mutex
| az_control_vars_mutex
| alt_control_vars_mutex.

(** Which mutexes are locked. *)
Record locks : Type := {
  az_pid_values : bool;
  alt_pid_values : bool;
  az_control_vars : bool;
  alt_control_vars : bool
}.

Definition all_free : locks :=
  {| az_pid_values := false; alt_pid_values := false;
     az_control_vars := false; alt_control_vars := false |}.

Definition locked (m : mutex) (l : locks) : bool :=
  match m with
  | az_pid_values_mutex => az_pid_values l
  | alt_pid_values_mutex => alt_pid_values l
  | az_control_vars_mutex => az_control_vars l
  | alt_control_vars_mutex => alt_control_vars l
  end.

Definition set_locked (m : mutex) (b : bool) (l : locks) : locks :=
  match m with
  | az_pid_values_mutex =>
      {| az_pid_values := b; alt_pid_values := alt_pid_values l;
         az_control_vars := az_control_vars l;
         alt_control_vars := alt_control_vars l |}
  | alt_pid_values_mutex =>
      {| az_pid_values := az_pid_values l; alt_pid_values := b;
         az_control_vars := az_control_vars l;
         alt_control_vars := alt_control_vars l |}
  | az_control_vars_mutex =>
      {| az_pid_values := az_pid_values l;
         alt_pid_values := alt_pid_values l;
         az_control_vars := b; alt_control_vars := alt_control_vars l |}
  | alt_control_vars_mutex =>
      {| az_pid_values := az_pid_values l;
         alt_pid_values := alt_pid_values l;
         az_control_vars := az_control_vars l; alt_control_vars := b |}
  end.

(** A call returns, with its result and the locks as it leaves them,
    or it is left waiting for a locked mutex, with the locks as they
    are while it waits. *)
Inductive outcome (A : Type) : Type :=
| Returns (a : A) (l : locks)
| Waits (m : mutex) (l : locks).

Arguments Returns {A} a l.
Arguments Waits {A} m l.

Definition prog (A : Type) : Type := locks -> outcome A.

Definition ret {A : Type} (a : A) : prog A := fun l => Returns a l.

Definition bind {A B : Type} (c : prog A) (f : A -> prog B) : prog B :=
  fun l =>
    match c l with
    | Returns a l' => f a l'
    | Waits m l' => Waits m l'
    end.

Notation "c1 ;; c2" := (bind c1 (fun _ => c2))
  (at level 61, right associativity).

Definition pthread_mutex_lock (m : mutex) : prog unit :=
  fun l => if locked m l then Waits m l else Returns tt (set_locked m true l).

Definition pthread_mutex_unlock (m : mutex) : prog unit :=
  fun l => Returns tt (set_locked m false l).

(** [motor_control_step]: the gains are read under their mutex. *)
Definition motor_control_step (pid_values_mutex : mutex) : prog unit :=
  pthread_mutex_lock pid_values_mutex ;;
  pthread_mutex_unlock pid_values_mutex.

Definition pid_update : prog unit :=
  pthread_mutex_lock az_control_vars_mutex ;;
  pthread_mutex_lock alt_control_vars_mutex ;;
  motor_control_step az_pid_values_mutex ;;
  motor_control_step alt_pid_values_mutex ;;
  pthread_mutex_unlock az_control_vars_mutex ;;
  pthread_mutex_unlock alt_control_vars_mutex.

Definition change_pid_values (motor_id : Z) : prog Z :=
  if motor_id =? 1 then
    pthread_mutex_lock az_pid_values_mutex ;;
    pthread_mutex_unlock az_pid_values_mutex ;;
    ret 0
  else if motor_id =? 2 then
    pthread_mutex_lock alt_pid_values_mutex ;;
    pthread_mutex_unlock alt_pid_values_mutex ;;
    ret 0
  else ret 1.

(** [change_mode_pid_values]: on a wrong mode id the azimuth branch
    unlocks its mutex before it returns 1, and the altitude branch
    unlocks the azimuth mutex too. *)
Definition change_mode_pid_values (motor_id mode_id : Z) : prog Z :=
  if motor_id =? 1 then
    pthread_mutex_lock az_pid_values_mutex ;;
    if mode_id =? 1 then
      pthread_mutex_unlock az_pid_values_mutex ;;
      ret 0
    else if mode_id =? 2 then
      pthread_mutex_unlock az_pid_values_mutex ;;
      ret 0
    else
      pthread_mutex_unlock az_pid_values_mutex ;;
      ret 1
  else if motor_id =? 2 then
    pthread_mutex_lock alt_pid_values_mutex ;;
    if mode_id =? 1 then
      pthread_mutex_unlock alt_pid_values_mutex ;;
      ret 0
    else if mode_id =? 2 then
      pthread_mutex_unlock alt_pid_values_mutex ;;
      ret 0
    else
      pthread_mutex_unlock az_pid_values_mutex ;;
      ret 1
  else ret 1.

Definition change_stabilization_mode (on_off : Z) : prog Z :=
  if on_off =? 1 then
    pthread_mutex_lock az_pid_values_mutex ;;
    pthread_mutex_unlock az_pid_values_mutex ;;
    pthread_mutex_lock alt_pid_values_mutex ;;
    pthread_mutex_unlock alt_pid_values_mutex ;;
    ret 0
  else if on_off =? 0 then
    pthread_mutex_lock az_pid_values_mutex ;;
    pthread_mutex_unlock az_pid_values_mutex ;;
    pthread_mutex_lock alt_pid_values_mutex ;;
    pthread_mutex_unlock alt_pid_values_mutex ;;
    ret 0
  else ret 1.

Definition pid_reset : prog unit :=
  pthread_mutex_lock az_control_vars_mutex ;;
  pthread_mutex_unlock az_control_vars_mutex ;;
  pthread_mutex_lock alt_control_vars_mutex ;;
  pthread_mutex_unlock alt_control_vars_mutex.

(** [init_pid] sets the tracking gains through
    [change_stabilization_mode]. *)
Definition init_pid : prog unit :=
  change_stabilization_mode 0 ;; ret tt.

(** The entry points of the component, and the locks a call of one of
    them leaves, returned or waiting. *)
Inductive entry : Type :=
| Init_pid
| Pid_update
| Change_pid_values (motor_id : Z)
| Change_mode_pid_values (motor_id mode_id : Z)
| Change_stabilization_mode (on_off : Z)
| Pid_reset.

Definition call (c : entry) : prog unit :=
  match c with
  | Init_pid => init_pid
  | Pid_update => pid_update
  | Change_pid_values motor_id => change_pid_values motor_id ;; ret tt
  | Change_mode_pid_values motor_id mode_id =>
      change_mode_pid_values motor_id mode_id ;; ret tt
  | Change_stabilization_mode on_off =>
      change_stabilization_mode on_off ;; ret tt
  | Pid_reset => pid_reset
  end.

Definition locks_left {A : Type} (o : outcome A) : locks :=
  match o with
  | Returns _ l => l
  | Waits _ l => l
  end.

(** Calls made one after another, by whichever threads: a call that is
    left waiting keeps what it had locked. *)
Definition calls (cs : list entry) (l : locks) : locks :=
  fold_left (fun l c => locks_left (call c l)) cs l.

(** The entry points that take [alt_pid_values_mutex]. *)
Definition takes_alt_pid_values (c : entry) : bool :=
  match c with
  | Init_pid | Pid_update => true
  | Change_pid_values motor_id => motor_id =? 2
  | Change_mode_pid_values motor_id _ => motor_id =? 2
  | Change_stabilization_mode on_off => (on_off =? 1) || (on_off =? 0)
  | Pid_reset => false
  end.

End PidLocks.

(** ** The mode registry ([mode.c]) *)
Module Mode.

(** Modelled from the spec: the enumeration [mode_t] of [mode.h], which
    is not part of the sources at hand.  The spec gives it as RESET,
    NORMAL and mission-specific phases; [normal] and [RESET] are the
    two enumerators the sources name. *)
Inductive mode_t : Type :=
| RESET
| normal
| phase (id : nat).

Definition mode_eqb (a b : mode_t) : bool :=
  match a, b with
  | RESET, RESET | normal, normal => true
  | phase i, phase j => Nat.eqb i j
  | _, _ => false
  end.

(** The static [mode]. *)
Record registry : Type := { mode : mode_t }.

(** [init_mode]; [res] is the result of [pthread_mutex_init]. *)
Definition init_mode (res : Z) (r : registry) : registry * status_t :=
  let r := {| mode := normal |} in
  if (res =? 0)%Z then (r, SUCCESS) else (r, FAILURE).

Definition set_mode (ch : mode_t) (r : registry) : registry :=
  {| mode := ch |}.

Definition get_mode (r : registry) : mode_t := mode r.

End Mode.

(** ** The gyroscope poller ([gyroscope.c]) *)
Module Gyro.

Import Mode.
Local Open Scope Z_scope.

Definition DATAGRAM_IDENTIFIER : Z := 0x94.
Definition DATAGRAM_SIZE : nat := 27.

(** [gyro_t] of [sensors.h]. *)
Record gyro_t : Type := {
  x : double;
  y : double;
  z : double;
  out_of_date : Z
}.

(** Modelled from the spec: the protected object of the sensors
    component, whose source is not at hand: the latest gyroscope
    reading with its out-of-date flag, and the temperature kept beside
    it. *)
Record gyro_shared : Type := {
  reading : gyro_t;
  temperature : double
}.

(** Modelled from the spec: [set_gyro], absent from the sources.  It
    overwrites the three axis fields and clears the out-of-date flag. *)
Definition set_gyro (g : gyro_t) (s : gyro_shared) : gyro_shared :=
  {| reading := {| x := x g; y := y g; z := z g; out_of_date := 0 |};
     temperature := temperature s |}.

(** Modelled from the spec: [gyro_out_of_date], absent from the
    sources.  It sets the out-of-date flag and keeps the rates. *)
Definition gyro_out_of_date (s : gyro_shared) : gyro_shared :=
  {| reading := {| x := x (reading s); y := y (reading s);
                   z := z (reading s); out_of_date := 1 |};
     temperature := temperature s |}.

(** Modelled from the spec: [set_gyro_temp], absent from the sources.
    It publishes the temperature and nothing else. *)
Definition set_gyro_temp (temp : double) (s : gyro_shared) : gyro_shared :=
  {| reading := reading s; temperature := temp |}.

(** The status of an FTDI call. *)
Inductive FT_STATUS : Type :=
| FT_OK
| FT_ERROR (code : Z).

(** The statics of the poller: the buffer, the decoded rates, the local
    reading, and the shared object they are published to. *)
Record poller : Type := {
  data : list Z;
  rate : list double;
  gyro : gyro_t;
  shared : gyro_shared
}.

Inductive log_event : Type :=
| Warn_read_failed (code : Z)
| Warn_incorrect_datagram
| Warn_bad_quality (status : Z)
| Warn_bad_temperature (status : Z)
| Csv (gx gy gz temp : double).

(** [data[i]]. *)
Definition byte_at (d : list Z) (i : nat) : Z := nth i d 0.

(** [*(int32_t* )buffer] and [*(int16_t* )buffer] on the little-endian
    host: [buffer[0]] is the least significant byte. *)
Definition int32_of_buffer (b0 b1 b2 b3 : Z) : Z :=
  let u := Z.lor b0 (Z.lor (Z.shiftl b1 8)
             (Z.lor (Z.shiftl b2 16) (Z.shiftl b3 24))) in
  if u <? 2 ^ 31 then u else u - 2 ^ 32.

Definition int16_of_buffer (b0 b1 : Z) : Z :=
  let u := Z.lor b0 (Z.shiftl b1 8) in
  if u <? 2 ^ 15 then u else u - 2 ^ 16.

(** The body of the decoding loop up to the cast: the 32-bit integer of
    channel [ii]. *)
Definition sample (d : list Z) (ii : nat) : Z :=
  let buffer0 := byte_at d (3 + 3 * ii) in
  let buffer1 := byte_at d (2 + 3 * ii) in
  let buffer2 := byte_at d (1 + 3 * ii) in
  let buffer3 :=
    if Z.land (byte_at d (1 + 3 * ii)) 0x80 =? 0 then 0x00 else 0xFF in
  int32_of_buffer buffer0 buffer1 buffer2 buffer3.

Definition decode_rate (d : list Z) (ii : nat) : double :=
  (Fin (inject_Z (sample d ii)) / Fin 16384)%dbl.

Definition decode_temp (d : list Z) : double :=
  (Fin (inject_Z (int16_of_buffer (byte_at d 12) (byte_at d 11)))
   / Fin 256)%dbl.

(** [active_m] from the read of the full datagram on.  The trigger
    pulse, the sleeps and the two synchronisation loops before it only
    fill the buffer: [ret] is the status of the read and [received] the
    buffer it leaves. *)
Definition active_m (ret : FT_STATUS) (received : list Z) (p : poller)
    : poller * list log_event :=
  let p := {| data := received; rate := rate p; gyro := gyro p;
              shared := shared p |} in
  match ret with
  | FT_ERROR code => (p, [Warn_read_failed code])
  | FT_OK =>
      if negb (byte_at (data p) (DATAGRAM_SIZE - 2) =? 13)
         || negb (byte_at (data p) (DATAGRAM_SIZE - 1) =? 10)
      then (p, [Warn_incorrect_datagram])
      else if negb (byte_at (data p) 10 =? 0)
      then ({| data := data p; rate := rate p; gyro := gyro p;
               shared := gyro_out_of_date (shared p) |},
            [Warn_bad_quality (byte_at (data p) 10)])
      else
        let r := map (decode_rate (data p)) [0%nat; 1%nat; 2%nat] in
        let g := {| x := nth 0 r NaN; y := nth 1 r NaN; z := nth 2 r NaN;
                    out_of_date := out_of_date (gyro p) |} in
        let sh := set_gyro g (shared p) in
        if byte_at (data p) 17 =? 0 then
          let temp := decode_temp (data p) in
          ({| data := data p; rate := r; gyro := g;
              shared := set_gyro_temp temp sh |},
           [Csv (x g) (y g) (z g) temp])
        else
          ({| data := data p; rate := r; gyro := g; shared := sh |},
           [Warn_bad_temperature (byte_at (data p) 17);
            Csv (x g) (y g) (z g) NaN])
  end.

(** The three datagram bytes of a signed 24-bit value, most significant
    first: what the device sends at offsets [1+3i], [2+3i], [3+3i]. *)
Definition encode24 (v : Z) : Z * Z * Z :=
  (Z.land (Z.shiftr v 16) 0xFF, Z.land (Z.shiftr v 8) 0xFF, Z.land v 0xFF).

(** [thread_func]: the thread is either blocked in [pthread_cond_wait]
    or about to test [get_mode() != RESET] at the head of the sampling
    loop.  [cycles] counts the runs of [active_m]. *)
Inductive thread_pc : Type :=
| Cond_wait
| Loop_head.

Record thread : Type := {
  pc : thread_pc;
  cycles : nat;
  state : poller
}.

(** The start signal. *)
Definition signal (t : thread) : thread :=
  match pc t with
  | Cond_wait => {| pc := Loop_head; cycles := cycles t; state := state t |}
  | Loop_head => t
  end.

(** One turn of the thread: the loop test and, when it passes, one
    sampling cycle on what the transport delivers. *)
Definition thread_step (r : registry) (ret : FT_STATUS) (received : list Z)
    (t : thread) : thread :=
  match pc t with
  | Cond_wait => t
  | Loop_head =>
      if mode_eqb (get_mode r) RESET
      then {| pc := Cond_wait; cycles := cycles t; state := state t |}
      else {| pc := Loop_head; cycles := S (cycles t);
              state := fst (active_m ret received (state t)) |}
  end.

End Gyro.

(** ** The set-up of the gyroscope poller ([init_gyroscope_poller])

    The function is a chain of calls into the C library, the GPIO
    component and the FTDI driver; what each call answers is the
    environment's, and the model records the calls made.  The function
    returns a plain [int], so the answers and the macros they are
    compared with are integers here. *)
Module GyroInit.

Definition FTDI_BAUDRATE : Z := 921600.

(** What the environment answers: whether [fopen] gave a file, the
    value of [errno] at the [return] that follows when it did not, the
    results of the two GPIO calls, the status of the four FTDI calls
    and the result of [create_thread]. *)
Record init_env : Type := {
  gyro_log_is_NULL : bool;
  errno : Z;
  gpio_export_ret : Z;
  gpio_direction_ret : Z;
  FT_OpenEx_stat : Z;
  FT_SetBaudRate_stat : Z;
  FT_SetTimeouts_stat : Z;
  FT_SetLatencyTimer_stat : Z;
  create_thread_ret : Z
}.

Inductive call : Type :=
| Call_fopen
| Call_gpio_export
| Call_gpio_direction
| Call_gpio_write_high
| Call_FT_OpenEx
| Call_FT_SetBaudRate (baud : Z)
| Call_FT_SetTimeouts (read_ms write_ms : Z)
| Call_FT_SetLatencyTimer (ms : Z)
| Call_create_thread (priority : Z).

Section Macros.

(** [SUCCESS] and [FAILURE] of [global_utils.h] and [FT_OK] of
    [ftd2xx.h], as the integers they expand to. *)
Variables SUCCESS FAILURE FT_OK : Z.

(** The returned [int] and the calls made, in order. *)
Definition init_gyroscope_poller (e : init_env) : Z * list call :=
  let t := [Call_fopen] in
  if gyro_log_is_NULL e then (errno e, t)
  else
    let t := t ++ [Call_gpio_export] in
    let ret := gpio_export_ret e in
    if negb (ret =? SUCCESS)%Z then (ret, t)
    else
      let t := t ++ [Call_gpio_direction] in
      let ret := gpio_direction_ret e in
      if negb (ret =? SUCCESS)%Z then (ret, t)
      else
        let t := t ++ [Call_gpio_write_high; Call_FT_OpenEx] in
        if negb (FT_OpenEx_stat e =? FT_OK)%Z then (FAILURE, t)
        else
          let t := t ++ [Call_FT_SetBaudRate FTDI_BAUDRATE] in
          if negb (FT_SetBaudRate_stat e =? FT_OK)%Z then (FAILURE, t)
          else
            let t := t ++ [Call_FT_SetTimeouts 4 4] in
            if negb (FT_SetTimeouts_stat e =? FT_OK)%Z then (FAILURE, t)
            else
              let t := t ++ [Call_FT_SetLatencyTimer 2] in
              if negb (FT_SetLatencyTimer_stat e =? FT_OK)%Z
              then (FAILURE, t)
              else (create_thread_ret e, t ++ [Call_create_thread 40]).

(** Every call before [create_thread] answered with success. *)
Definition all_ok (e : init_env) : Prop :=
  gyro_log_is_NULL e = false
  /\ gpio_export_ret e = SUCCESS
  /\ gpio_direction_ret e = SUCCESS
  /\ FT_OpenEx_stat e = FT_OK
  /\ FT_SetBaudRate_stat e = FT_OK
  /\ FT_SetTimeouts_stat e = FT_OK
  /\ FT_SetLatencyTimer_stat e = FT_OK.

End Macros.

(** The calls of a set-up in which nothing fails. *)
Definition full_setup : list call :=
  [Call_fopen; Call_gpio_export; Call_gpio_direction; Call_gpio_write_high;
   Call_FT_OpenEx; Call_FT_SetBaudRate FTDI_BAUDRATE; Call_FT_SetTimeouts 4 4;
   Call_FT_SetLatencyTimer 2; Call_create_thread 40].

End GyroInit.

(** ** Statements

    The predicates and the concrete runs the theorems below are stated
    with. *)
Module Statements.

Import Pid Mode Gyro.

(** [|x| <= m] on doubles. *)
Definition within (x m : double) : Prop := dle (fabs x) m = true.

Definition finite (x : double) : Prop := is_finite x = true.

Definition finite_gains (p : pid_values_t) : Prop :=
  finite (kp p) /\ finite (ki p) /\ finite (kd p).

(** The fields of the control variables that feed the next step; the
    time stamp does not. *)
Definition finite_vars (c : control_variables_t) : Prop :=
  finite (current_position c) /\ finite (target_position c)
  /\ finite (position_error c) /\ finite (derivative c)
  /\ finite (integral c) /\ finite (pid_output c).

(** The limits are finite and the two bounds are not negative, as
    [init_pid] leaves them for positive macros. *)
Definition good_limits (l : pid_limits) : Prop :=
  finite (step_per_deg l)
  /\ (exists m, max_motor_ang l = Fin m /\ 0 <= m)
  /\ (exists r, max_change_rate l = Fin r /\ 0 <= r).

(** The states a control step is run from: finite active gains, good
    limits and finite previous variables. *)
Definition good_state (s : pid_state) : Prop :=
  finite_gains (current_az_pid_values (gains s))
  /\ finite_gains (current_alt_pid_values (gains s))
  /\ good_limits (limits s)
  /\ finite_vars (az_prev_control_vars (vars s))
  /\ finite_vars (alt_prev_control_vars (vars s)).

(** What rate limiting promises for one axis: [prev] is the stored
    previous output, [pre] the output entering the stage and [post] the
    one leaving it. *)
Definition rate_limited (max_rate prev pre post : double) : Prop :=
  within (post - prev) max_rate
  /\ (dgt (fabs (pre - prev)) max_rate = true ->
        (dgt pre prev = true -> post = prev + max_rate)
        /\ (dlt pre prev = true -> post = prev - max_rate))%dbl
  /\ (dgt (fabs (pre - prev)) max_rate = false -> post = pre)%dbl.

(** What the saturation stage leaves of one axis. *)
Definition saturate (max_ang : double) (c : control_variables_t)
    : control_variables_t :=
  if (pid_output c >? max_ang)%dbl then set_pid_output max_ang c
  else if (pid_output c <? - max_ang)%dbl then set_pid_output (- max_ang) c
  else c.

(** The saturation code of an output entering the saturation stage. *)
Definition saturation_code (pre max_ang : double) : Z :=
  if (pre >? max_ang)%dbl then 1%Z
  else if (pre <? - max_ang)%dbl then 2%Z
  else 0%Z.

(** The saturation property read as tagging each axis: both outputs
    end within the bound and the recorded code is the code of the
    azimuth output and the code of the altitude output. *)
Definition saturation_recorded_per_axis (wait : Q) (s : pid_state)
    (i : step_inputs) : Prop :=
  let pre := after_rate_limit wait s i in
  let post := after_saturation wait s i in
  let m := max_motor_ang (limits s) in
  within (pid_output (az_current_control_vars post)) m
  /\ within (pid_output (alt_current_control_vars post)) m
  /\ threshold post
     = saturation_code (pid_output (az_current_control_vars pre)) m
  /\ threshold post
     = saturation_code (pid_output (alt_current_control_vars pre)) m.

(** The first-step scenario as the specification words it: the
    azimuth integral is 0 and, when 10 does not exceed the motor bound,
    the output is 10 and the azimuth command is the rounding of
    [step_per_deg * 10]. *)
Definition first_step_as_specified (wait : Q) (s : pid_state)
    (i : step_inputs) : Prop :=
  let r := pid_update wait s i in
  let c := az_prev_control_vars (vars (fst (fst r))) in
  (integral c == Fin 0)%dbl
  /\ (dle (Fin 10) (max_motor_ang (limits s)) = true ->
      (pid_output c == Fin 10)%dbl
      /\ az (snd (fst r)) = lround (step_per_deg (limits s) * Fin 10)%dbl).

(** [n] control steps on the same inputs. *)
Fixpoint run (wait : Q) (n : nat) (s : pid_state) (i : step_inputs)
    : pid_state :=
  match n with
  | O => s
  | S k => run wait k (fst (fst (pid_update wait s i))) i
  end.

(** The stored previous outputs are within the motor bound. *)
Definition bounded_outputs (s : pid_state) : Prop :=
  within (pid_output (az_prev_control_vars (vars s)))
    (max_motor_ang (limits s))
  /\ within (pid_output (alt_prev_control_vars (vars s)))
       (max_motor_ang (limits s)).

(** The calls the component offers once [init_pid] has run, with finite
    arguments. *)
Inductive command : Type :=
| Update (i : step_inputs)
| Set_gains (motor_id : Z) (p i d : Q)
| Set_mode_gains (motor_id mode_id : Z) (p i d : Q)
| Regime (on_off : Z)
| Reset.

Definition execute (wait : Q) (s : pid_state) (c : command) : pid_state :=
  match c with
  | Update i => fst (fst (pid_update wait s i))
  | Set_gains motor_id p i d =>
      {| gains := fst (change_pid_values motor_id (Fin p) (Fin i) (Fin d)
                         (gains s));
         limits := limits s; vars := vars s |}
  | Set_mode_gains motor_id mode_id p i d =>
      {| gains := fst (change_mode_pid_values motor_id mode_id
                         (Fin p) (Fin i) (Fin d) (gains s));
         limits := limits s; vars := vars s |}
  | Regime on_off =>
      {| gains := fst (change_stabilization_mode on_off (gains s));
         limits := limits s; vars := vars s |}
  | Reset =>
      {| gains := gains s; limits := limits s; vars := pid_reset (vars s) |}
  end.

(** A 10 ms control period. *)
Definition wait_10ms : Q := 10000000.

(** The statics after [init_pid] for macros that give one step per
    degree, and for macros that give a thousand. *)
Definition unit_gimbal : pid_state := fst (init_pid 360 1 1 static_state).
Definition geared_gimbal : pid_state :=
  fst (init_pid 200 18 100 static_state).

(** Attitude [(a, b)] and tracking angles [(c, d)], read at time 0. *)
Definition at_angles (a b c d : Q) : step_inputs :=
  {| cur_att := {| att_az := Fin a; att_alt := Fin b |};
     tracking_az := Fin c; tracking_alt := Fin d;
     time_first := Fin 0; time_now := Fin 0 |}.

(** A state with the azimuth active gains overridden by
    [change_pid_values]. *)
Definition override_az (p i d : Q) (s : pid_state) : pid_state :=
  {| gains := fst (change_pid_values 1 (Fin p) (Fin i) (Fin d) (gains s));
     limits := limits s; vars := vars s |}.

(** A datagram: identifier, three channels, their status byte,
    temperature, its status byte at offset 17, and the terminator. *)
Definition datagram (c0 c1 c2 : Z * Z * Z) (status : Z) (t1 t0 tstatus : Z)
    (cr lf : Z) : list Z :=
  let ch := fun c : Z * Z * Z => [fst (fst c); snd (fst c); snd c] in
  [DATAGRAM_IDENTIFIER] ++ ch c0 ++ ch c1 ++ ch c2 ++ [status; t1; t0]
  ++ [0; 0; 0; 0; tstatus; 0; 0; 0; 0; 0; 0; 0; cr; lf]%Z.

(** A buffer of bytes. *)
Definition is_byte (b : Z) : Prop := (0 <= b < 256)%Z.

(** The two datagram bytes of a signed 16-bit value, most significant
    first: what the device sends at offsets 11 and 12. *)
Definition encode16 (t : Z) : Z * Z :=
  (Z.land (Z.shiftr t 8) 0xFF, Z.land t 0xFF).

(** The turns of the poller thread on what the transport delivers,
    under a registry that does not change meanwhile. *)
Definition thread_run (r : registry) (l : list (FT_STATUS * list Z))
    (t : thread) : thread :=
  fold_left (fun t x => thread_step r (fst x) (snd x) t) l t.

Definition idle_poller : poller :=
  {| data := repeat 0%Z DATAGRAM_SIZE;
     rate := [Fin 0; Fin 0; Fin 0];
     gyro := {| x := Fin 0; y := Fin 0; z := Fin 0; out_of_date := 0 |};
     shared := {| reading := {| x := Fin 1; y := Fin 2; z := Fin 3;
                                out_of_date := 1 |};
                  temperature := Fin 20 |} |}.

(** A poller whose last cycle published a reading. *)
Definition tracking_poller : poller :=
  {| data := repeat 0%Z DATAGRAM_SIZE;
     rate := [Fin 1; Fin 2; Fin 3];
     gyro := {| x := Fin 1; y := Fin 2; z := Fin 3; out_of_date := 0 |};
     shared := {| reading := {| x := Fin 1; y := Fin 2; z := Fin 3;
                                out_of_date := 0 |};
                  temperature := Fin 20 |} |}.

End Statements.

(** ** Statements at binary64 precision *)
Module Statements64.

Import Pid64.
Local Open Scope float_scope.
Local Set Warnings "-inexact-float".

(** [n] control steps on the same inputs. *)
Fixpoint run (wait : float) (n : nat) (s : pid_state) (i : step_inputs)
    : pid_state :=
  match n with
  | O => s
  | S k => run wait k (fst (fst (pid_update wait s i))) i
  end.

(** A 10 ms control period. *)
Definition wait_10ms : float := 10000000.

(** The statics after [init_pid] for macros that give one step per
    degree, and for macros that give a thousand. *)
Definition unit_gimbal : pid_state := fst (init_pid 360 1 1 static_state).
Definition geared_gimbal : pid_state :=
  fst (init_pid 200 18 100 static_state).

(** Attitude [(a, b)] and tracking angles [(c, d)], read at time 0. *)
Definition at_angles (a b c d : float) : step_inputs :=
  {| cur_att := {| att_az := a; att_alt := b |};
     tracking_az := c; tracking_alt := d;
     time_first := 0; time_now := 0 |}.

(** A state with the azimuth active gains overridden by
    [change_pid_values]. *)
Definition override_az (p i d : float) (s : pid_state) : pid_state :=
  {| gains := fst (change_pid_values 1 p i d (gains s));
     limits := limits s; vars := vars s |}.

(** What the saturation stage leaves of one axis. *)
Definition saturate (max_ang : float) (c : control_variables_t)
    : control_variables_t :=
  if pid_output c >? max_ang then set_pid_output max_ang c
  else if pid_output c <? - max_ang then set_pid_output (- max_ang) c
  else c.

(** The saturation code of an output entering the saturation stage. *)
Definition saturation_code (pre max_ang : float) : Z :=
  if pre >? max_ang then 1%Z
  else if pre <? - max_ang then 2%Z
  else 0%Z.

(** [|x| <= m] as the C expression [fabs(x) <= m]. *)
Definition within (x m : float) : Prop := leb (abs x) m = true.

(** The number a finite binary64 value stands for. *)
Definition value (x : float) : option Q :=
  match Prim2SF x with
  | S754_zero _ => Some 0%Q
  | S754_finite s m e =>
      Some ((if s then - inject_Z (Z.pos m) else inject_Z (Z.pos m))
            * 2 ^ e)%Q
  | S754_infinity _ | S754_nan => None
  end.

(** [|post - prev| <= r] on the numbers themselves, without the
    rounding of a computed difference. *)
Definition change_within (post prev r : float) : bool :=
  match value post, value prev, value r with
  | Some a, Some b, Some c => Qle_bool (Qabs (a - b)) c
  | _, _, _ => false
  end.

(** The rate bound as the specification words it: for both axes the
    output leaves the rate-limiting stage within [max_change_rate] of
    the stored previous output. *)
Definition rate_bound_as_specified (wait : float) (s : pid_state)
    (i : step_inputs) : Prop :=
  let post := after_rate_limit wait s i in
  let r := max_change_rate (limits s) in
  change_within (pid_output (az_current_control_vars post))
    (pid_output (az_prev_control_vars (vars s))) r = true
  /\ change_within (pid_output (alt_current_control_vars post))
       (pid_output (alt_prev_control_vars (vars s))) r = true.

(** What the rate-limiting stage does to one axis: [prev] is the stored
    previous output, [pre] the output entering the stage and [post] the
    one leaving it.  Where the computed change exceeds [max_rate] the
    output is the rounded sum or difference of [prev] and [max_rate],
    on the side of the change; elsewhere it is left alone, and the
    computed change is within [max_rate] unless it is NaN. *)
Definition rate_limited (max_rate prev pre post : float) : Prop :=
  (ltb max_rate (abs (pre - prev)) = true ->
     (ltb prev pre = true -> post = prev + max_rate)
     /\ (ltb pre prev = true -> post = prev - max_rate)
     /\ (ltb prev pre = false -> post = prev - max_rate))
  /\ (ltb max_rate (abs (pre - prev)) = false ->
        post = pre
        /\ (is_nan max_rate = false -> is_nan (pre - prev) = false ->
            leb (abs (post - prev)) max_rate = true)).

End Statements64.

(** ** Doubles *)
Module DoubleFacts.

Lemma Qltb_true (a b : Q) : Qltb a b = true <-> a < b.
Proof.
  unfold Qltb. rewrite negb_true_iff. split.
  - intros H. apply Qnot_le_lt. intros Hle.
    apply Qle_bool_iff in Hle. congruence.
  - intros H. destruct (Qle_bool b a) eqn:E; [ | reflexivity ].
    apply Qle_bool_iff in E. lra.
Qed.

Lemma Qltb_false (a b : Q) : Qltb a b = false <-> b <= a.
Proof.
  unfold Qltb. rewrite negb_false_iff. apply Qle_bool_iff.
Qed.

Lemma Qis0_true (a : Q) : Qis0 a = true <-> a == 0.
Proof. apply Qeq_bool_iff. Qed.

Lemma Qis0_false (a : Q) : Qis0 a = false <-> ~ a == 0.
Proof.
  unfold Qis0. split.
  - intros H E. apply Qeq_bool_iff in E. congruence.
  - intros H. destruct (Qeq_bool a 0) eqn:E; [ | reflexivity ].
    apply Qeq_bool_iff in E. contradiction.
Qed.

Lemma finite_inv (x : double) : is_finite x = true -> exists q, x = Fin q.
Proof. destruct x; try discriminate. eauto. Qed.

Ltac dsimpl :=
  cbv beta iota zeta delta
    [dsub dadd dneg dmul ddiv fabs dgt dlt dle is_finite] in *.

Lemma within_fin (a m : Q) : dle (fabs (Fin a)) (Fin m) = true <-> Qabs a <= m.
Proof. dsimpl. apply Qle_bool_iff. Qed.

(** [lround] sees the value of a rational, not its representation. *)
Lemma lround_proper (a b : Q) : a == b -> lround (Fin a) = lround (Fin b).
Proof.
  intros E. unfold lround, Qlround.
  rewrite (Qleb_comp 0 0 (Qeq_refl 0) a b E).
  assert (E1 : a + (1 # 2) == b + (1 # 2)) by (rewrite E; reflexivity).
  assert (E2 : - a + (1 # 2) == - b + (1 # 2)) by (rewrite E; reflexivity).
  now rewrite (Qfloor_comp _ _ E1), (Qfloor_comp _ _ E2).
Qed.

End DoubleFacts.

Module PidFacts.
Import Pid Statements DoubleFacts.


(** Projections of assigned records. *)
Ltac rsimpl :=
  cbn [kp ki kd
       current_position target_position position_error derivative integral
       pid_output time_in_seconds
       set_current_position set_target_position set_position_error
       set_derivative set_integral set_pid_output set_time_in_seconds
       az_prev_control_vars az_current_control_vars alt_prev_control_vars
       alt_current_control_vars sim_time sim_start threshold first_iteration
       set_az_prev set_az_current set_alt_prev set_alt_current set_sim_time
       set_sim_start set_threshold set_first_iteration
       gains limits vars step_per_deg max_motor_ang max_change_rate
       az alt fst snd] in *.

(** *** Rate limiting *)

Lemma rate_limit_axis (r p o : Q) (prev c : control_variables_t) :
  0 <= r -> pid_output prev = Fin p -> pid_output c = Fin o ->
  rate_limited (Fin r) (Fin p) (Fin o) (pid_output (rate_limit (Fin r) prev c)).
Proof.
  intros Hr Hp Ho. unfold rate_limit, rate_limited, within.
  rewrite Hp, Ho. dsimpl.
  destruct (Qltb r (Qabs (o + - p))) eqn:Habs.
  - apply Qltb_true in Habs.
    destruct (Qltb p o) eqn:Hgt; cbn [pid_output set_pid_output].
    + apply Qltb_true in Hgt. split; [ | split ].
      * apply Qle_bool_iff, Qabs_Qle_condition. split; lra.
      * intros _. split; [ reflexivity | ].
        intros Hlt. apply Qltb_true in Hlt. lra.
      * discriminate.
    + apply Qltb_false in Hgt. split; [ | split ].
      * apply Qle_bool_iff, Qabs_Qle_condition. split; lra.
      * intros _. split; [ discriminate | reflexivity ].
      * discriminate.
  - apply Qltb_false in Habs. rewrite Ho. split; [ | split ].
    + now apply Qle_bool_iff.
    + discriminate.
    + reflexivity.
Qed.

(** *** The stages of [pid_update], axis by axis *)

Section Stages.

Variable wait : Q.

Lemma read_inputs_current (i : step_inputs) (v : pid_vars) :
  current_position (az_current_control_vars (pid_read_inputs i v))
  = att_az (cur_att i)
  /\ target_position (az_current_control_vars (pid_read_inputs i v))
     = tracking_az i
  /\ current_position (alt_current_control_vars (pid_read_inputs i v))
     = att_alt (cur_att i)
  /\ target_position (alt_current_control_vars (pid_read_inputs i v))
     = tracking_alt i.
Proof.
  destruct v as [ap ac bp bc st ss th fi].
  destruct fi; lazy; repeat split.
Qed.

Lemma read_inputs_az_prev (i : step_inputs) (v : pid_vars) :
  pid_output (az_prev_control_vars (pid_read_inputs i v))
  = pid_output (az_prev_control_vars v)
  /\ integral (az_prev_control_vars (pid_read_inputs i v))
     = integral (az_prev_control_vars v)
  /\ position_error (az_prev_control_vars (pid_read_inputs i v))
     = (if first_iteration v then Fin 0
        else position_error (az_prev_control_vars v)).
Proof.
  destruct v as [ap ac bp bc st ss th fi].
  destruct fi; lazy; repeat split.
Qed.

Lemma read_inputs_alt_prev (i : step_inputs) (v : pid_vars) :
  pid_output (alt_prev_control_vars (pid_read_inputs i v))
  = pid_output (alt_prev_control_vars v)
  /\ integral (alt_prev_control_vars (pid_read_inputs i v))
     = integral (alt_prev_control_vars v)
  /\ position_error (alt_prev_control_vars (pid_read_inputs i v))
     = (if first_iteration v then Fin 0
        else position_error (alt_prev_control_vars v)).
Proof.
  destruct v as [ap ac bp bc st ss th fi].
  destruct fi; lazy; repeat split.
Qed.

Lemma pid_main_vars (g : gain_store) (v : pid_vars) :
  az_current_control_vars (pid_main wait g v)
  = motor_control_step wait (current_az_pid_values g)
      (az_prev_control_vars v) (az_current_control_vars v)
  /\ alt_current_control_vars (pid_main wait g v)
     = motor_control_step wait (current_alt_pid_values g)
         (alt_prev_control_vars v) (alt_current_control_vars v)
  /\ az_prev_control_vars (pid_main wait g v) = az_prev_control_vars v
  /\ alt_prev_control_vars (pid_main wait g v) = alt_prev_control_vars v.
Proof. destruct v. unfold pid_main. repeat split. Qed.

(** Both blocks clamp against the azimuth gain. *)
Lemma pid_anti_windup_vars (g : gain_store) (l : pid_limits) (v : pid_vars) :
  az_current_control_vars (pid_anti_windup g l v)
  = anti_windup (max_motor_ang l) (ki (current_az_pid_values g))
      (az_current_control_vars v)
  /\ alt_current_control_vars (pid_anti_windup g l v)
     = anti_windup (max_motor_ang l) (ki (current_az_pid_values g))
         (alt_current_control_vars v)
  /\ az_prev_control_vars (pid_anti_windup g l v) = az_prev_control_vars v
  /\ alt_prev_control_vars (pid_anti_windup g l v) = alt_prev_control_vars v.
Proof. destruct v. unfold pid_anti_windup. repeat split. Qed.

Lemma pid_rate_limit_vars (l : pid_limits) (v : pid_vars) :
  az_current_control_vars (pid_rate_limit l v)
  = rate_limit (max_change_rate l) (az_prev_control_vars v)
      (az_current_control_vars v)
  /\ alt_current_control_vars (pid_rate_limit l v)
     = rate_limit (max_change_rate l) (alt_prev_control_vars v)
         (alt_current_control_vars v)
  /\ az_prev_control_vars (pid_rate_limit l v) = az_prev_control_vars v
  /\ alt_prev_control_vars (pid_rate_limit l v) = alt_prev_control_vars v.
Proof. destruct v. unfold pid_rate_limit. repeat split. Qed.

Lemma pid_saturation_vars (l : pid_limits) (v : pid_vars) :
  az_current_control_vars (pid_saturation l v)
  = saturate (max_motor_ang l) (az_current_control_vars v)
  /\ alt_current_control_vars (pid_saturation l v)
     = saturate (max_motor_ang l) (alt_current_control_vars v)
  /\ threshold (pid_saturation l v)
     = saturation_code (pid_output (az_current_control_vars v))
         (max_motor_ang l)
  /\ az_prev_control_vars (pid_saturation l v) = az_prev_control_vars v
  /\ alt_prev_control_vars (pid_saturation l v) = alt_prev_control_vars v.
Proof.
  destruct v as [ap ac bp bc st ss th fi].
  unfold pid_saturation, saturate, saturation_code. rsimpl.
  destruct (dgt (pid_output ac) (max_motor_ang l));
    [ | destruct (dlt (pid_output ac) (- max_motor_ang l)) ]; rsimpl;
    (destruct (dgt (pid_output bc) (max_motor_ang l));
     [ | destruct (dlt (pid_output bc) (- max_motor_ang l)) ]);
    repeat split.
Qed.

Lemma pid_deadband_vars (v : pid_vars) :
  az_current_control_vars (pid_deadband v)
  = deadband (az_current_control_vars v)
  /\ alt_current_control_vars (pid_deadband v)
     = deadband (alt_current_control_vars v)
  /\ threshold (pid_deadband v) = threshold v.
Proof. destruct v. unfold pid_deadband. repeat split. Qed.

(** [pid_update] in terms of its stages. *)
Lemma pid_update_parts (s : pid_state) (i : step_inputs) :
  vars (fst (fst (pid_update wait s i))) = pid_commit (after_deadband wait s i)
  /\ gains (fst (fst (pid_update wait s i))) = gains s
  /\ limits (fst (fst (pid_update wait s i))) = limits s
  /\ snd (fst (pid_update wait s i))
     = pid_steps (limits s) (after_saturation wait s i)
  /\ snd (pid_update wait s i)
     = pid_log (gains s) (after_deadband wait s i)
         (pid_steps (limits s) (after_saturation wait s i)).
Proof. unfold pid_update. repeat split. Qed.

(** *** One axis at a time *)

Lemma timestep_finite :
  ~ wait == 0 ->
  stabilization_timestep wait = Fin (wait / 1000000000)
  /\ Qis0 (wait / 1000000000) = false.
Proof.
  intros Hw. split.
  - reflexivity.
  - apply Qis0_false. intros E. apply Hw.
    assert (H : wait == wait / 1000000000 * 1000000000) by (field; discriminate).
    rewrite H, E. reflexivity.
Qed.

(** On finite operands and a non-zero period the PID formula gives
    the finite values of the textbook formula. *)
Lemma motor_control_step_finite (pv : pid_values_t)
    (prev cur : control_variables_t) (p i d pe pI t c : Q) :
  ~ wait == 0 ->
  kp pv = Fin p -> ki pv = Fin i -> kd pv = Fin d ->
  position_error prev = Fin pe -> integral prev = Fin pI ->
  target_position cur = Fin t -> current_position cur = Fin c ->
  let r := motor_control_step wait pv prev cur in
  let dt := wait / 1000000000 in
  let e := t + - c in
  position_error r = Fin e
  /\ integral r = Fin (pI + e * dt)
  /\ derivative r = Fin ((e + - pe) / dt)
  /\ pid_output r
     = Fin (p * e + i * (pI + e * dt) + d * ((e + - pe) / dt))
  /\ current_position r = Fin c
  /\ target_position r = Fin t.
Proof.
  intros Hw Hp Hi Hd Hpe HpI Ht Hc.
  destruct (timestep_finite Hw) as [Hdt Hnz].
  unfold motor_control_step. rsimpl.
  rewrite Hp, Hi, Hd, Hpe, HpI, Ht, Hc, Hdt. dsimpl. rewrite Hnz.
  repeat split.
Qed.

Lemma anti_windup_keeps (m k : double) (c : control_variables_t) :
  pid_output (anti_windup m k c) = pid_output c
  /\ position_error (anti_windup m k c) = position_error c
  /\ derivative (anti_windup m k c) = derivative c
  /\ current_position (anti_windup m k c) = current_position c
  /\ target_position (anti_windup m k c) = target_position c.
Proof.
  unfold anti_windup.
  destruct (dgt (integral c) (m / k)); [ | destruct (dlt (integral c) (- m / k)) ];
    repeat split.
Qed.

Lemma rate_limit_keeps (r : double) (prev c : control_variables_t) :
  position_error (rate_limit r prev c) = position_error c
  /\ integral (rate_limit r prev c) = integral c
  /\ derivative (rate_limit r prev c) = derivative c
  /\ current_position (rate_limit r prev c) = current_position c
  /\ target_position (rate_limit r prev c) = target_position c.
Proof.
  unfold rate_limit.
  destruct (dgt (fabs (pid_output c - pid_output prev)) r);
    [ destruct (dgt (pid_output c) (pid_output prev)) | ]; repeat split.
Qed.

Lemma saturate_keeps (m : double) (c : control_variables_t) :
  position_error (saturate m c) = position_error c
  /\ integral (saturate m c) = integral c
  /\ derivative (saturate m c) = derivative c
  /\ current_position (saturate m c) = current_position c
  /\ target_position (saturate m c) = target_position c.
Proof.
  unfold saturate.
  destruct (dgt (pid_output c) m); [ | destruct (dlt (pid_output c) (- m)) ];
    repeat split.
Qed.

Lemma deadband_keeps (c : control_variables_t) :
  position_error (deadband c) = position_error c
  /\ integral (deadband c) = integral c
  /\ derivative (deadband c) = derivative c
  /\ current_position (deadband c) = current_position c
  /\ target_position (deadband c) = target_position c.
Proof.
  unfold deadband.
  destruct (dlt (fabs (position_error c)) (Fin 0.02)); repeat split.
Qed.

(** Anti windup against a finite gain [k] and a bound that is not
    negative: the integral stays finite and [k * integral] ends within
    the bound, whatever the sign of [k]; a zero [k] makes the clamp
    infinite and the integral is left alone. *)
Lemma anti_windup_axis (m k I : Q) (c : control_variables_t) :
  0 <= m -> integral c = Fin I ->
  exists I', integral (anti_windup (Fin m) (Fin k) c) = Fin I'
             /\ Qabs (k * I') <= m
             /\ (k == 0 -> I' = I).
Proof.
  intros Hm HI. unfold anti_windup. rewrite HI. dsimpl.
  destruct (Qis0 k) eqn:Hk.
  - apply Qis0_true in Hk. unfold inf_signed.
    assert (Hz : Qabs (k * I) <= m).
    { apply Qabs_Qle_condition. rewrite Hk. split; lra. }
    destruct (Qis0 m) eqn:Hm0.
    + assert (Hm0' : Qis0 (- m) = true).
      { apply Qis0_true. apply Qis0_true in Hm0. lra. }
      rewrite Hm0'. exists I. rewrite HI. auto.
    + assert (Hm0' : Qis0 (- m) = false).
      { apply Qis0_false. apply Qis0_false in Hm0. lra. }
      rewrite Hm0'.
      assert (Hpos : Qltb 0 m = true).
      { apply Qltb_true. apply Qis0_false in Hm0. lra. }
      assert (Hneg : Qltb 0 (- m) = false).
      { apply Qltb_false. lra. }
      rewrite Hpos, Hneg. exists I. rewrite HI. auto.
  - apply Qis0_false in Hk.
    assert (E1 : k * (m / k) == m) by (apply Qmult_div_r; exact Hk).
    assert (E2 : k * (- m / k) == - m) by (apply Qmult_div_r; exact Hk).
    destruct (Qltb (m / k) I) eqn:Hhi.
    + exists (m / k). rsimpl. split; [ reflexivity | split ].
      * apply Qabs_Qle_condition. rewrite E1. split; lra.
      * intros E. contradiction.
    + destruct (Qltb I (- m / k)) eqn:Hlo.
      * exists (- m / k). rsimpl. split; [ reflexivity | split ].
        -- apply Qabs_Qle_condition. rewrite E2. split; lra.
        -- intros E. contradiction.
      * exists I. split; [ exact HI | split ].
        -- apply Qltb_false in Hhi, Hlo.
           apply Qabs_Qle_condition.
           destruct (Qlt_le_dec 0 k) as [Hpos | Hneg].
           ++ assert (A : k * I <= k * (m / k))
                by (apply Qmult_le_l; assumption).
              assert (B : k * (- m / k) <= k * I)
                by (apply Qmult_le_l; assumption).
              rewrite E1 in A. rewrite E2 in B. split; lra.
           ++ assert (Hk' : 0 < - k).
              { destruct (Qle_lt_or_eq _ _ Hneg) as [Hlt | Heq]; [ lra | ].
                exfalso. apply Hk. exact Heq. }
              assert (A : - k * I <= - k * (m / k)).
              { apply Qmult_le_l; [ exact Hk' | exact Hhi ]. }
              assert (B : - k * (- m / k) <= - k * I).
              { apply Qmult_le_l; [ exact Hk' | exact Hlo ]. }
              assert (A' : - (k * I) <= - (k * (m / k))).
              { setoid_replace (- (k * (m / k))) with (- k * (m / k)) by ring.
                setoid_replace (- (k * I)) with (- k * I) by ring. exact A. }
              assert (B' : - (k * (- m / k)) <= - (k * I)).
              { setoid_replace (- (k * (- m / k))) with (- k * (- m / k)) by ring.
                setoid_replace (- (k * I)) with (- k * I) by ring. exact B. }
              rewrite E1 in A'. rewrite E2 in B'. split; lra.
        -- intros E. contradiction.
Qed.

(** Saturation of a finite output against a bound that is not
    negative. *)
Lemma saturate_axis (m o : Q) (c : control_variables_t) :
  0 <= m -> pid_output c = Fin o ->
  exists o', pid_output (saturate (Fin m) c) = Fin o'
             /\ Qabs o' <= m
             /\ (Qabs o <= m -> o' = o).
Proof.
  intros Hm Ho. unfold saturate. rewrite Ho. dsimpl.
  destruct (Qltb m o) eqn:Hhi.
  - apply Qltb_true in Hhi. exists m. rsimpl.
    split; [ reflexivity | split ].
    + apply Qabs_Qle_condition. split; lra.
    + intros H. apply Qabs_Qle_condition in H. lra.
  - apply Qltb_false in Hhi. destruct (Qltb o (- m)) eqn:Hlo.
    + apply Qltb_true in Hlo. exists (- m). rsimpl.
      split; [ reflexivity | split ].
      * apply Qabs_Qle_condition. split; lra.
      * intros H. apply Qabs_Qle_condition in H. lra.
    + apply Qltb_false in Hlo. exists o.
      split; [ exact Ho | split ].
      * apply Qabs_Qle_condition. split; lra.
      * reflexivity.
Qed.

End Stages.

(** *** [init_pid] *)

Lemma init_pid_limits (spr msf gr : Q) (s : pid_state) :
  0 < spr * msf * gr ->
  let spd := spr * msf * gr / 360 in
  limits (fst (init_pid spr msf gr s))
  = {| step_per_deg := Fin spd;
       max_motor_ang := Fin (35 / spd);
       max_change_rate := Fin (5 / spd) |}
  /\ 0 < spd.
Proof.
  intros Hpos spd.
  assert (Hspd : 0 < spd).
  { unfold spd. apply Qlt_shift_div_l; [ reflexivity | lra ]. }
  split; [ | exact Hspd ].
  unfold init_pid. cbn [fst limits]. dsimpl.
  change (Qis0 360) with false. cbv iota. fold spd.
  assert (Hnz : Qis0 spd = false) by (apply Qis0_false; lra).
  rewrite Hnz. reflexivity.
Qed.

Lemma init_pid_good_state (spr msf gr : Q) (s : pid_state) :
  0 < spr * msf * gr ->
  finite_gains (track_az_pid_values (gains s)) ->
  finite_gains (track_alt_pid_values (gains s)) ->
  good_state (fst (init_pid spr msf gr s)).
Proof.
  intros Hpos Ha Hb.
  destruct (init_pid_limits spr msf gr s Hpos) as (Hl & Hspd).
  unfold good_state. rewrite Hl.
  split; [ exact Ha | split; [ exact Hb | split; [ | split ] ] ].
  - unfold good_limits. cbn [step_per_deg max_motor_ang max_change_rate].
    split; [ reflexivity | split ]; eexists; (split; [ reflexivity | ]);
      apply Qle_shift_div_l; lra.
  - unfold finite_vars. repeat split.
  - unfold finite_vars. repeat split.
Qed.

(** *** The whole pipeline of one axis *)

Lemma pid_commit_vars (v : pid_vars) :
  az_prev_control_vars (pid_commit v) = az_current_control_vars v
  /\ alt_prev_control_vars (pid_commit v) = alt_current_control_vars v
  /\ az_current_control_vars (pid_commit v) = az_current_control_vars v
  /\ alt_current_control_vars (pid_commit v) = alt_current_control_vars v.
Proof. destruct v. repeat split. Qed.

(** What a step stores for each axis, and the command it emits, in
    terms of the axis pipelines; [v1] is the statics once the inputs
    are read. *)
Lemma pid_update_pipeline (wait : Q) (s : pid_state) (i : step_inputs) :
  let v1 := pid_read_inputs i (vars s) in
  let m := max_motor_ang (limits s) in
  let r := max_change_rate (limits s) in
  let k := ki (current_az_pid_values (gains s)) in
  let a4 := saturate m
              (rate_limit r (az_prev_control_vars v1)
                 (anti_windup m k
                    (motor_control_step wait (current_az_pid_values (gains s))
                       (az_prev_control_vars v1)
                       (az_current_control_vars v1)))) in
  let b4 := saturate m
              (rate_limit r (alt_prev_control_vars v1)
                 (anti_windup m k
                    (motor_control_step wait (current_alt_pid_values (gains s))
                       (alt_prev_control_vars v1)
                       (alt_current_control_vars v1)))) in
  let out := pid_update wait s i in
  az_prev_control_vars (vars (fst (fst out))) = deadband a4
  /\ alt_prev_control_vars (vars (fst (fst out))) = deadband b4
  /\ az (snd (fst out)) = lround (step_per_deg (limits s) * pid_output a4)
  /\ alt (snd (fst out)) = lround (step_per_deg (limits s) * pid_output b4)
  /\ log_pid_output (snd out) = pid_output (deadband a4).
Proof.
  intros v1 m r k a4 b4 out.
  destruct (pid_update_parts wait s i) as (Hv & _ & _ & Hm & Hl).
  destruct (pid_commit_vars (after_deadband wait s i)) as (Ca & Cb & _).
  destruct (pid_deadband_vars (after_saturation wait s i)) as (Da & Db & _).
  destruct (pid_saturation_vars (limits s) (after_rate_limit wait s i))
    as (Sa & Sb & _).
  destruct (pid_rate_limit_vars (limits s) (after_anti_windup wait s i))
    as (La & Lb & Lpa & Lpb).
  destruct (pid_anti_windup_vars (gains s) (limits s) (after_main wait s i))
    as (Wa & Wb & Wpa & Wpb).
  destruct (pid_main_vars wait (gains s) v1) as (Ma & Mb & Mpa & Mpb).
  change (pid_main wait (gains s) v1) with (after_main wait s i)
    in Ma, Mb, Mpa, Mpb.
  change (pid_anti_windup (gains s) (limits s) (after_main wait s i))
    with (after_anti_windup wait s i) in Wa, Wb, Wpa, Wpb.
  change (pid_rate_limit (limits s) (after_anti_windup wait s i))
    with (after_rate_limit wait s i) in La, Lb.
  change (pid_saturation (limits s) (after_rate_limit wait s i))
    with (after_saturation wait s i) in Sa, Sb.
  change (pid_deadband (after_saturation wait s i))
    with (after_deadband wait s i) in Da, Db.
  assert (Ea : az_current_control_vars (after_saturation wait s i) = a4).
  { rewrite Sa, La, Wa, Wpa, Ma, Mpa. reflexivity. }
  assert (Eb : alt_current_control_vars (after_saturation wait s i) = b4).
  { rewrite Sb, Lb, Wb, Wpb, Mb, Mpb. reflexivity. }
  subst out. rewrite Hv, Hm, Hl, Ca, Cb, Da, Db, Ea, Eb.
  unfold pid_steps, pid_log. cbn [az alt log_pid_output].
  rewrite Da, Ea, Eb. repeat split.
Qed.

Lemma wait_10ms_nonzero : ~ wait_10ms == 0.
Proof. intros H. vm_compute in H. discriminate H. Defined.

(** C2, counterexample: after seven steps towards an altitude target
    90 degrees away, the eighth altitude output enters the saturation
    stage above the bound and is clamped while the azimuth output is
    not: the recorded code is 0, not the altitude's code 1. *)
Lemma saturation_code_ignores_altitude :
  ~ saturation_recorded_per_axis wait_10ms
      (run wait_10ms 7 unit_gimbal (at_angles 0 0 0 90)) (at_angles 0 0 0 90).
Proof.
  unfold saturation_recorded_per_axis. intros (_ & _ & _ & H).
  vm_compute in H. discriminate H.
Qed.

(** C1, at a failing input: after [init_pid] with the default tracking
    gains (azimuth [ki] 0.01, altitude [ki] 0.2) and a thousand steps
    per degree, one step with the altitude target 90 degrees away
    leaves the altitude integral at 0.9: its contribution 0.18 exceeds
    [max_motor_ang] = 0.035, because the altitude block clamps against
    the azimuth gain, and that integral is what the step stores. *)
Lemma altitude_windup_escapes_bound :
  let s := geared_gimbal in
  let i := at_angles 0 0 0 90 in
  let v := after_anti_windup wait_10ms s i in
  let k := ki (current_alt_pid_values (gains s)) in
  dgt (fabs (k * integral (alt_current_control_vars v))%dbl)
    (max_motor_ang (limits s)) = true
  /\ ~ within (k * integral (alt_current_control_vars v))%dbl
         (max_motor_ang (limits s))
  /\ (integral (alt_current_control_vars v) == Fin 0.9)%dbl
  /\ integral (alt_prev_control_vars
                 (vars (fst (fst (pid_update wait_10ms s i)))))
     = integral (alt_current_control_vars v).
Proof.
  cbv zeta. unfold within. split; [ | split; [ | split ] ].
  - vm_compute. reflexivity.
  - intros H. vm_compute in H. discriminate H.
  - vm_compute. reflexivity.
  - vm_compute. reflexivity.
Qed.

(** C3, at a failing input: after [init_pid] with one step per degree,
    an azimuth target 0.01 degrees away gives a position error inside
    the deadband, yet the azimuth command is one step: the command is
    computed before the output is zeroed, and only the stored and
    logged output is 0. *)
Lemma deadband_does_not_reach_motor :
  let s := unit_gimbal in
  let i := at_angles 0 0 0.01 0 in
  let r := pid_update wait_10ms s i in
  let c := az_prev_control_vars (vars (fst (fst r))) in
  dlt (fabs (position_error c)) (Fin 0.02) = true
  /\ az (snd (fst r)) = Some 1%Z
  /\ log_motor_az (snd r) = Some 1%Z
  /\ pid_output c = Fin 0
  /\ log_pid_output (snd r) = Fin 0.
Proof. cbv zeta. repeat split; vm_compute; reflexivity. Qed.

(** C5, counterexample: with one step per degree the bound is 35, so
    10 does not exceed it; yet the first step towards a target 10
    degrees away with gains (1, 0, 0) stores the integral 0.1 and the
    output 5, the rate limit, and commands 5 steps. *)
Lemma first_step_is_rate_limited :
  let s := override_az 1 0 0 unit_gimbal in
  let i := at_angles 0 0 10 0 in
  let r := pid_update wait_10ms s i in
  let c := az_prev_control_vars (vars (fst (fst r))) in
  ~ first_step_as_specified wait_10ms s i
  /\ dle (Fin 10) (max_motor_ang (limits s)) = true
  /\ (integral c == Fin 0.1)%dbl
  /\ (pid_output c == Fin 5)%dbl
  /\ az (snd (fst r)) = Some 5%Z.
Proof.
  cbv zeta. split; [ | repeat split; vm_compute; reflexivity ].
  unfold first_step_as_specified. intros (_ & H).
  destruct H as (H & _); [ vm_compute; reflexivity | ].
  vm_compute in H. discriminate H.
Qed.

(** C5, as the code has it: on the first step after [init_pid], with the
    azimuth gains overridden to (1, 0, 0), a 10 ms period, attitude 0
    and target 10, the azimuth integral is 0.1 and its term
    [ki * integral] is 0; the stored output is 10 and the command the
    rounding of [step_per_deg * 10] when 10 does not exceed
    [max_change_rate]; otherwise the output is [max_change_rate] and
    the command is 5 steps. *)
Theorem first_step_scenario (spr msf gr b d : Q) :
  0 < spr * msf * gr ->
  let s := override_az 1 0 0 (fst (init_pid spr msf gr static_state)) in
  let i := at_angles 0 b 10 d in
  let r := pid_update wait_10ms s i in
  let c := az_prev_control_vars (vars (fst (fst r))) in
  (integral c == Fin 0.1)%dbl
  /\ (ki (current_az_pid_values (gains s)) * integral c == Fin 0)%dbl
  /\ (dle (Fin 10) (max_change_rate (limits s)) = true ->
      (pid_output c == Fin 10)%dbl
      /\ az (snd (fst r)) = lround (step_per_deg (limits s) * Fin 10)%dbl)
  /\ (dlt (max_change_rate (limits s)) (Fin 10) = true ->
      (pid_output c == max_change_rate (limits s))%dbl
      /\ az (snd (fst r)) = Some 5%Z).
Proof.
  intros Hpos s i r c.
  destruct (init_pid_limits spr msf gr static_state Hpos) as (Hl & Hspd).
  set (spd := spr * msf * gr / 360) in *.
  assert (Hlim : limits s = {| step_per_deg := Fin spd;
                               max_motor_ang := Fin (35 / spd);
                               max_change_rate := Fin (5 / spd) |})
    by exact Hl.
  destruct (pid_update_pipeline wait_10ms s i) as (Ea & _ & Em & _).
  fold r in Ea, Em. fold c in Ea.
  set (v1 := pid_read_inputs i (vars s)) in *.
  set (c0 := motor_control_step wait_10ms (current_az_pid_values (gains s))
               (az_prev_control_vars v1) (az_current_control_vars v1)) in *.
  assert (Hk : ki (current_az_pid_values (gains s)) = Fin 0) by reflexivity.
  rewrite Hlim, Hk in Ea, Em.
  cbn [step_per_deg max_motor_ang max_change_rate] in Ea, Em.
  destruct (motor_control_step_finite wait_10ms
              (current_az_pid_values (gains s))
              (az_prev_control_vars v1) (az_current_control_vars v1)
              1 0 0 0 0 10 0 wait_10ms_nonzero)
    as (R1 & R2 & _ & R4 & _); try reflexivity.
  fold c0 in R1, R2, R4. cbv zeta in R1, R2, R4.
  set (e := 10 + - 0) in *. set (dt := wait_10ms / 1000000000) in *.
  set (I := 0 + e * dt) in *.
  set (o := 1 * e + 0 * I + 0 * ((e + - 0) / dt)) in *.
  assert (Ho : o == 10) by (vm_compute; reflexivity).
  assert (HI : I == 0.1) by (vm_compute; reflexivity).
  assert (Hm0 : 0 <= 35 / spd) by (apply Qle_shift_div_l; lra).
  assert (Hr0 : 0 <= 5 / spd) by (apply Qle_shift_div_l; lra).
  assert (Hrm : 5 / spd <= 35 / spd).
  { unfold Qdiv. pose proof (Qinv_lt_0_compat spd Hspd). nra. }
  (* anti windup against a zero gain *)
  set (c1 := anti_windup (Fin (35 / spd)) (Fin 0) c0) in *.
  destruct (anti_windup_axis (35 / spd) 0 I c0 Hm0 R2) as (I' & HI' & _ & HIeq).
  fold c1 in HI'. rewrite (HIeq (Qeq_refl 0)) in HI'. clear HIeq I'.
  destruct (anti_windup_keeps (Fin (35 / spd)) (Fin 0) c0) as (K1 & K2 & _).
  fold c1 in K1, K2. rewrite R4 in K1. rewrite R1 in K2.
  (* rate limiting from a zero previous output *)
  assert (Hp : pid_output (az_prev_control_vars v1) = Fin 0) by reflexivity.
  set (c2 := rate_limit (Fin (5 / spd)) (az_prev_control_vars v1) c1) in *.
  pose proof (rate_limit_axis (5 / spd) 0 o (az_prev_control_vars v1) c1
                Hr0 Hp K1) as (_ & Hclamp & Hfree).
  fold c2 in Hclamp, Hfree.
  destruct (rate_limit_keeps (Fin (5 / spd)) (az_prev_control_vars v1) c1)
    as (L1 & L2 & _).
  fold c2 in L1, L2. rewrite K2 in L1. rewrite HI' in L2.
  set (c3 := saturate (Fin (35 / spd)) c2) in *.
  destruct (saturate_keeps (Fin (35 / spd)) c2) as (S1 & S2 & _).
  fold c3 in S1, S2. rewrite L1 in S1. rewrite L2 in S2.
  destruct (deadband_keeps c3) as (_ & D2 & _). rewrite S2 in D2.
  assert (Hdead : deadband c3 = c3).
  { unfold deadband. rewrite S1. reflexivity. }
  assert (Habs : Qabs (o + - 0) == 10) by (vm_compute; reflexivity).
  rewrite Hlim. cbn [step_per_deg max_motor_ang max_change_rate].
  rewrite Hk, Ea, Em, D2.
  split; [ exact HI | split; [ | split ] ].
  - dsimpl. unfold deq. lra.
  - intros Hle. apply Qle_bool_iff in Hle.
    assert (Hnot : dgt (fabs (Fin o - Fin 0)) (Fin (5 / spd)) = false).
    { dsimpl. apply Qltb_false. rewrite Habs. exact Hle. }
    specialize (Hfree Hnot).
    destruct (saturate_axis (35 / spd) o c2 Hm0 Hfree) as (o' & Ho' & _ & Heq).
    fold c3 in Ho'. rewrite Heq in Ho'.
    2: { apply Qabs_Qle_condition. split; lra. }
    rewrite Hdead, Ho'. split.
    + exact Ho.
    + dsimpl. apply lround_proper. rewrite Ho. reflexivity.
  - intros Hlt. apply Qltb_true in Hlt.
    assert (Hyes : dgt (fabs (Fin o - Fin 0)) (Fin (5 / spd)) = true).
    { dsimpl. apply Qltb_true. rewrite Habs. exact Hlt. }
    destruct (Hclamp Hyes) as (Hup & _).
    assert (Hgt : dgt (Fin o) (Fin 0) = true) by (vm_compute; reflexivity).
    specialize (Hup Hgt). dsimpl.
    destruct (saturate_axis (35 / spd) (0 + 5 / spd) c2 Hm0 Hup)
      as (o' & Ho' & _ & Heq).
    fold c3 in Ho'. rewrite Heq in Ho'.
    2: { apply Qabs_Qle_condition. split; lra. }
    rewrite Hdead, Ho'. split.
    + unfold deq. lra.
    + assert (E5 : spd * (0 + 5 / spd) == 5) by (field; lra).
      rewrite (lround_proper _ _ E5). reflexivity.
Qed.

Lemma first_step_scenario_witness :
  let s := override_az 1 0 0 (fst (init_pid 180 1 1 static_state)) in
  let i := at_angles 0 0 10 0 in
  let r := pid_update wait_10ms s i in
  let c := az_prev_control_vars (vars (fst (fst r))) in
  (integral c == Fin 0.1)%dbl
  /\ (ki (current_az_pid_values (gains s)) * integral c == Fin 0)%dbl
  /\ (dle (Fin 10) (max_change_rate (limits s)) = true ->
      (pid_output c == Fin 10)%dbl
      /\ az (snd (fst r)) = lround (step_per_deg (limits s) * Fin 10)%dbl)
  /\ (dlt (max_change_rate (limits s)) (Fin 10) = true ->
      (pid_output c == max_change_rate (limits s))%dbl
      /\ az (snd (fst r)) = Some 5%Z).
Proof.
  apply (first_step_scenario 180 1 1 0 0). vm_compute. reflexivity.
Defined.

End PidFacts.

(** ** The control step at binary64 precision *)
Module Pid64Facts.
Import Pid64 Statements64.

Local Open Scope float_scope.
Local Set Warnings "-inexact-float".

(** *** The order of binary64 values

    The comparisons of the primitive floats are those of their
    specification [spec_float]: by sign, then exponent, then
    mantissa. *)

Ltac sf_cases :=
  repeat match goal with
         | x : spec_float |- _ => destruct x as [[ | ] | [ | ] | | [ | ] ? ?]
         end.

Ltac sf_compare :=
  cbn [SFleb SFltb SFeqb SFcompare SFabs SFopp negb
       SF64add SF64sub SFadd SFsub] in *;
  try discriminate; try reflexivity; try congruence;
  change (Pos.compare_cont Eq) with Pos.compare in *;
  repeat match goal with
         | H : context [Z.compare ?a ?b] |- _ =>
             destruct (Z.compare_spec a b); cbn [CompOpp] in *;
             try discriminate; try lia
         | |- context [Z.compare ?a ?b] =>
             destruct (Z.compare_spec a b); cbn [CompOpp] in *;
             try discriminate; try lia
         end;
  subst;
  repeat match goal with
         | H : context [Pos.compare ?a ?b] |- _ =>
             destruct (Pos.compare_spec a b); cbn [CompOpp] in *;
             try discriminate; try lia
         | |- context [Pos.compare ?a ?b] =>
             destruct (Pos.compare_spec a b); cbn [CompOpp] in *;
             try discriminate; try lia
         end;
  try reflexivity; try congruence; try lia.

Lemma SFltb_asym (a b : spec_float) : SFltb a b = true -> SFltb b a = false.
Proof. intros H. sf_cases; sf_compare. Qed.

Lemma SFltb_false_leb (a b : spec_float) :
  a <> S754_nan -> b <> S754_nan -> SFltb b a = false -> SFleb a b = true.
Proof. intros Ha Hb H. sf_cases; sf_compare. Qed.

Lemma SFeqb_refl_false (a : spec_float) : SFeqb a a = false -> a = S754_nan.
Proof. intros H. sf_cases; sf_compare. Qed.

(** A bound that is not negative bounds its own magnitude and that of
    its opposite. *)
Lemma SFleb_abs_bound (m : spec_float) :
  SFleb (S754_zero false) m = true ->
  SFleb (SFabs m) m = true /\ SFleb (SFabs (SFopp m)) m = true.
Proof. intros H. sf_cases; split; sf_compare. Qed.

(** A value that exceeds neither the bound nor its opposite is within
    the bound. *)
Lemma SF_between (a m : spec_float) :
  a <> S754_nan -> SFleb (S754_zero false) m = true ->
  SFltb m a = false -> SFltb a (SFopp m) = false ->
  SFleb (SFabs a) m = true.
Proof. intros Ha Hm H1 H2. sf_cases; sf_compare. Qed.

(** A value cannot exceed both a bound that is not negative and its
    opposite. *)
Lemma SF_one_side (a m : spec_float) :
  SFleb (S754_zero false) m = true ->
  SFltb m a = true -> SFltb a (SFopp m) = false.
Proof. intros Hm H. sf_cases; sf_compare. Qed.

(** Clamping a value within [r] to a bound that is not negative keeps
    it within [r]. *)
Lemma SF_clamp_hi (m q r : spec_float) :
  SFleb (S754_zero false) m = true -> SFltb m q = true ->
  SFleb (SFabs q) r = true -> SFleb (SFabs m) r = true.
Proof. intros Hm H1 H2. sf_cases; sf_compare. Qed.

Lemma SF_clamp_lo (m q r : spec_float) :
  SFleb (S754_zero false) m = true -> SFltb q (SFopp m) = true ->
  SFleb (SFabs q) r = true -> SFleb (SFabs (SFopp m)) r = true.
Proof. intros Hm H1 H2. sf_cases; sf_compare. Qed.

(** Sums and differences with zero are exact. *)
Lemma SF_zero_plus (r : spec_float) :
  SFleb (S754_zero false) r = true ->
  SFleb (SFabs (SF64add (S754_zero false) r)) r = true
  /\ SFleb (SFabs (SF64sub (S754_zero false) r)) r = true.
Proof. intros H. sf_cases; split; sf_compare. Qed.

Lemma SF_minus_zero (a r : spec_float) :
  a <> S754_nan -> SFleb (S754_zero false) r = true ->
  SFltb r (SFabs (SF64sub a (S754_zero false))) = false ->
  SFleb (SFabs a) r = true.
Proof. intros Ha Hr H. sf_cases; sf_compare. Qed.

(** Division of a positive bound by a zero: an infinity with the sign
    of the zero, against which no comparison can clamp unless it is
    the lower one. *)
Lemma SF_div_zero (m : spec_float) (s : bool) :
  SFltb (S754_zero false) m = true ->
  SF64div m (S754_zero s) = S754_infinity s
  /\ SF64div (SFopp m) (S754_zero s) = S754_infinity (negb s).
Proof.
  intros H. destruct s; sf_cases; try discriminate H; split; reflexivity.
Qed.

Lemma SF_infinity_bounds (a : spec_float) :
  SFltb (S754_infinity false) a = false
  /\ SFltb a (S754_infinity true) = false.
Proof. sf_cases; split; reflexivity. Qed.

Lemma is_nan_false (x : float) : is_nan x = false -> Prim2SF x <> S754_nan.
Proof.
  unfold is_nan. rewrite eqb_spec. intros H E. rewrite E in H. discriminate H.
Qed.

Lemma is_nan_true (x : float) : is_nan x = true -> Prim2SF x = S754_nan.
Proof.
  unfold is_nan. rewrite eqb_spec, negb_true_iff. apply SFeqb_refl_false.
Qed.

(** [a < b] excludes [b < a]. *)
Lemma ltb_asym (a b : float) : ltb a b = true -> ltb b a = false.
Proof. rewrite !ltb_spec. apply SFltb_asym. Qed.

(** Of two values that are not NaN, the first is at most the second as
    soon as it is not above it. *)
Lemma not_ltb_leb (a b : float) :
  is_nan a = false -> is_nan b = false -> ltb b a = false -> leb a b = true.
Proof.
  intros Ha Hb. apply is_nan_false in Ha, Hb.
  rewrite ltb_spec, leb_spec. apply SFltb_false_leb; assumption.
Qed.

Lemma is_nan_abs (x : float) : is_nan x = false -> is_nan (abs x) = false.
Proof.
  intros H. apply is_nan_false in H.
  destruct (is_nan (abs x)) eqn:E; [ | reflexivity ].
  apply is_nan_true in E. rewrite abs_spec in E.
  destruct (Prim2SF x); try discriminate E. contradiction.
Qed.

(** Comparisons with NaN are false. *)
Lemma ltb_nan (x m : float) :
  is_nan x = true -> ltb m x = false /\ ltb x m = false.
Proof.
  intros H. apply is_nan_true in H. rewrite !ltb_spec, H.
  split; [ destruct (Prim2SF m) | ]; reflexivity.
Qed.

Lemma zero_spec : Prim2SF 0 = S754_zero false.
Proof. reflexivity. Qed.

(** *** The stages of [pid_update], axis by axis *)

Section Stages64.

Variable wait : float.

Lemma read_inputs_prev_output64 (i : step_inputs) (v : pid_vars) :
  pid_output (az_prev_control_vars (pid_read_inputs i v))
  = pid_output (az_prev_control_vars v)
  /\ pid_output (alt_prev_control_vars (pid_read_inputs i v))
     = pid_output (alt_prev_control_vars v).
Proof.
  destruct v as [ap ac bp bc st ss th fi].
  destruct fi; lazy; split; reflexivity.
Qed.

Lemma pid_main_vars64 (g : gain_store) (v : pid_vars) :
  az_current_control_vars (pid_main wait g v)
  = motor_control_step wait (current_az_pid_values g)
      (az_prev_control_vars v) (az_current_control_vars v)
  /\ alt_current_control_vars (pid_main wait g v)
     = motor_control_step wait (current_alt_pid_values g)
         (alt_prev_control_vars v) (alt_current_control_vars v)
  /\ az_prev_control_vars (pid_main wait g v) = az_prev_control_vars v
  /\ alt_prev_control_vars (pid_main wait g v) = alt_prev_control_vars v.
Proof. destruct v. unfold pid_main. repeat split. Qed.

Lemma pid_anti_windup_vars64 (g : gain_store) (l : pid_limits) (v : pid_vars) :
  az_current_control_vars (pid_anti_windup g l v)
  = anti_windup (max_motor_ang l) (ki (current_az_pid_values g))
      (az_current_control_vars v)
  /\ alt_current_control_vars (pid_anti_windup g l v)
     = anti_windup (max_motor_ang l) (ki (current_az_pid_values g))
         (alt_current_control_vars v)
  /\ az_prev_control_vars (pid_anti_windup g l v) = az_prev_control_vars v
  /\ alt_prev_control_vars (pid_anti_windup g l v) = alt_prev_control_vars v.
Proof. destruct v. unfold pid_anti_windup. repeat split. Qed.

Lemma pid_rate_limit_vars64 (l : pid_limits) (v : pid_vars) :
  az_current_control_vars (pid_rate_limit l v)
  = rate_limit (max_change_rate l) (az_prev_control_vars v)
      (az_current_control_vars v)
  /\ alt_current_control_vars (pid_rate_limit l v)
     = rate_limit (max_change_rate l) (alt_prev_control_vars v)
         (alt_current_control_vars v).
Proof. destruct v. unfold pid_rate_limit. repeat split. Qed.

Lemma pid_saturation_vars64 (l : pid_limits) (v : pid_vars) :
  az_current_control_vars (pid_saturation l v)
  = saturate (max_motor_ang l) (az_current_control_vars v)
  /\ alt_current_control_vars (pid_saturation l v)
     = saturate (max_motor_ang l) (alt_current_control_vars v)
  /\ threshold (pid_saturation l v)
     = saturation_code (pid_output (az_current_control_vars v))
         (max_motor_ang l).
Proof.
  destruct v as [ap ac bp bc st ss th fi].
  unfold pid_saturation, saturate, saturation_code.
  cbn [az_current_control_vars alt_current_control_vars threshold
       set_threshold set_az_current set_alt_current].
  destruct (ltb (max_motor_ang l) (pid_output ac));
    [ | destruct (ltb (pid_output ac) (- max_motor_ang l)) ];
    cbn [az_current_control_vars alt_current_control_vars threshold
         set_threshold set_az_current set_alt_current];
    (destruct (ltb (max_motor_ang l) (pid_output bc));
     [ | destruct (ltb (pid_output bc) (- max_motor_ang l)) ]);
    repeat split.
Qed.

Lemma pid_deadband_vars64 (v : pid_vars) :
  az_current_control_vars (pid_deadband v)
  = deadband (az_current_control_vars v)
  /\ alt_current_control_vars (pid_deadband v)
     = deadband (alt_current_control_vars v)
  /\ threshold (pid_deadband v) = threshold v.
Proof. destruct v. unfold pid_deadband. repeat split. Qed.

Lemma pid_commit_vars64 (v : pid_vars) :
  az_prev_control_vars (pid_commit v) = az_current_control_vars v
  /\ alt_prev_control_vars (pid_commit v) = alt_current_control_vars v
  /\ threshold (pid_commit v) = threshold v.
Proof. destruct v. repeat split. Qed.

Lemma pid_update_parts64 (s : pid_state) (i : step_inputs) :
  vars (fst (fst (pid_update wait s i))) = pid_commit (after_deadband wait s i)
  /\ limits (fst (fst (pid_update wait s i))) = limits s
  /\ log_threshold (snd (pid_update wait s i))
     = threshold (after_deadband wait s i).
Proof. unfold pid_update. repeat split. Qed.

Lemma stored_prev_outputs64 (s : pid_state) (i : step_inputs) :
  pid_output (az_prev_control_vars (after_anti_windup wait s i))
  = pid_output (az_prev_control_vars (vars s))
  /\ pid_output (alt_prev_control_vars (after_anti_windup wait s i))
     = pid_output (alt_prev_control_vars (vars s)).
Proof.
  unfold after_anti_windup, after_main.
  destruct (pid_anti_windup_vars64 (gains s) (limits s)
              (pid_main wait (gains s) (pid_read_inputs i (vars s))))
    as (_ & _ & Ha & Hb).
  destruct (pid_main_vars64 (gains s) (pid_read_inputs i (vars s)))
    as (_ & _ & Ha' & Hb').
  destruct (read_inputs_prev_output64 i (vars s)) as (Ha'' & Hb'').
  rewrite Ha, Hb, Ha', Hb', Ha'', Hb''. split; reflexivity.
Qed.

(** What a step stores for each axis. *)
Lemma stored_vars64 (s : pid_state) (i : step_inputs) :
  az_prev_control_vars (vars (fst (fst (pid_update wait s i))))
  = deadband (az_current_control_vars (after_saturation wait s i))
  /\ alt_prev_control_vars (vars (fst (fst (pid_update wait s i))))
     = deadband (alt_current_control_vars (after_saturation wait s i)).
Proof.
  destruct (pid_update_parts64 s i) as (Hv & _).
  destruct (pid_commit_vars64 (after_deadband wait s i)) as (Ca & Cb & _).
  destruct (pid_deadband_vars64 (after_saturation wait s i)) as (Da & Db & _).
  fold (after_deadband wait s i) in Da, Db.
  rewrite Hv, Ca, Cb, Da, Db. split; reflexivity.
Qed.

End Stages64.

(** *** One axis at a time *)

(** The rate-limiting stage on one axis. *)
Lemma rate_limit_axis64 (r : float) (prev c : control_variables_t) :
  rate_limited r (pid_output prev) (pid_output c)
    (pid_output (rate_limit r prev c)).
Proof.
  unfold rate_limit, rate_limited.
  destruct (ltb r (abs (pid_output c - pid_output prev))) eqn:Habs.
  - split; [ intros _ | discriminate ].
    destruct (ltb (pid_output prev) (pid_output c)) eqn:Hgt;
      cbn [pid_output set_pid_output].
    + split; [ reflexivity | split; [ | discriminate ] ].
      intros Hlt. apply ltb_asym in Hlt. congruence.
    + split; [ discriminate | split; reflexivity ].
  - split; [ discriminate | intros _ ].
    split; [ reflexivity | ].
    intros Hr Hd. apply not_ltb_leb; [ apply is_nan_abs | | ]; assumption.
Qed.

(** Saturation against a bound that is not negative brings every
    output that is not NaN within the bound. *)
Lemma saturate_within64 (m : float) (c : control_variables_t) :
  leb 0 m = true -> is_nan (pid_output c) = false ->
  within (pid_output (saturate m c)) m.
Proof.
  intros Hm Hn. rewrite leb_spec, zero_spec in Hm.
  destruct (SFleb_abs_bound _ Hm) as (Hhi & Hlo).
  apply is_nan_false in Hn.
  unfold saturate, within.
  destruct (ltb m (pid_output c)) eqn:H1;
    [ | destruct (ltb (pid_output c) (- m)) eqn:H2 ];
    cbn [pid_output set_pid_output]; rewrite leb_spec, abs_spec.
  - exact Hhi.
  - rewrite opp_spec. exact Hlo.
  - rewrite ltb_spec in H1, H2. rewrite opp_spec in H2.
    apply SF_between; assumption.
Qed.

(** NaN compares false with both bounds and passes unclamped. *)
Lemma saturate_nan64 (m : float) (c : control_variables_t) :
  is_nan (pid_output c) = true ->
  saturate m c = c /\ saturation_code (pid_output c) m = 0%Z.
Proof.
  intros Hn. unfold saturate, saturation_code.
  destruct (ltb_nan (pid_output c) m Hn) as (H1 & _).
  destruct (ltb_nan (pid_output c) (- m) Hn) as (_ & H2).
  rewrite H1, H2. split; reflexivity.
Qed.

Lemma saturation_code_cases64 (m o : float) :
  leb 0 m = true ->
  (saturation_code o m = 1%Z <-> ltb m o = true)
  /\ (saturation_code o m = 2%Z <-> ltb o (- m) = true)
  /\ (saturation_code o m = 0%Z <-> ltb m o = false /\ ltb o (- m) = false).
Proof.
  intros Hm. rewrite leb_spec, zero_spec in Hm.
  assert (Hone : ltb m o = true -> ltb o (- m) = false).
  { rewrite !ltb_spec, opp_spec. apply SF_one_side. exact Hm. }
  unfold saturation_code.
  destruct (ltb m o) eqn:H1; [ | destruct (ltb o (- m)) eqn:H2 ];
    (split; [ | split ]); split; intros H;
    try reflexivity; try discriminate; auto;
    try (destruct H; discriminate).
  rewrite (Hone eq_refl) in H. discriminate H.
Qed.

(** Rate limiting against a stored previous output of zero: an output
    that is not NaN leaves the stage within the rate bound. *)
Lemma rate_limit_from_zero64 (r : float) (prev c : control_variables_t) :
  leb 0 r = true -> pid_output prev = 0 -> is_nan (pid_output c) = false ->
  within (pid_output (rate_limit r prev c)) r.
Proof.
  intros Hr Hp Hn. rewrite leb_spec, zero_spec in Hr.
  destruct (SF_zero_plus _ Hr) as (Hadd & Hsub).
  apply is_nan_false in Hn.
  unfold rate_limit, within. rewrite Hp.
  destruct (ltb r (abs (pid_output c - 0))) eqn:Habs.
  - destruct (ltb 0 (pid_output c));
      cbn [pid_output set_pid_output]; rewrite leb_spec, abs_spec.
    + rewrite add_spec, zero_spec. exact Hadd.
    + rewrite sub_spec, zero_spec. exact Hsub.
  - rewrite leb_spec, abs_spec.
    rewrite ltb_spec, abs_spec, sub_spec, zero_spec in Habs.
    apply SF_minus_zero; assumption.
Qed.

(** Saturation against a bound that is not negative does not take an
    output further from zero. *)
Lemma saturate_shrinks64 (m r : float) (c : control_variables_t) :
  leb 0 m = true -> within (pid_output c) r ->
  within (pid_output (saturate m c)) r.
Proof.
  unfold within. intros Hm Hq.
  rewrite leb_spec, zero_spec in Hm. rewrite leb_spec, abs_spec in Hq.
  unfold saturate.
  destruct (ltb m (pid_output c)) eqn:H1;
    [ | destruct (ltb (pid_output c) (- m)) eqn:H2 ];
    cbn [pid_output set_pid_output]; rewrite leb_spec, abs_spec.
  - rewrite ltb_spec in H1. eapply SF_clamp_hi; eassumption.
  - rewrite ltb_spec, opp_spec in H2. rewrite opp_spec.
    eapply SF_clamp_lo; eassumption.
  - exact Hq.
Qed.

(** Anti windup against a gain of [+0]: both clamps are infinite and
    the variables are left alone. *)
Lemma anti_windup_plus_zero (m : float) (c : control_variables_t) :
  ltb 0 m = true -> anti_windup m 0 c = c.
Proof.
  intros Hm. rewrite ltb_spec, zero_spec in Hm.
  destruct (SF_div_zero _ false Hm) as (Hhi & Hlo).
  unfold anti_windup.
  assert (E1 : ltb (m / 0) (integral c) = false).
  { rewrite ltb_spec, div_spec, zero_spec, Hhi. apply SF_infinity_bounds. }
  assert (E2 : ltb (integral c) (- m / 0) = false).
  { rewrite ltb_spec, div_spec, opp_spec, zero_spec, Hlo.
    apply SF_infinity_bounds. }
  rewrite E1, E2. reflexivity.
Qed.

(** Anti windup against a gain of [-0]: the upper clamp is minus
    infinity, which every integral above it is set to, and the
    integral term of the next output, [ki * integral], is NaN. *)
Lemma anti_windup_minus_zero (m : float) (c : control_variables_t) :
  ltb 0 m = true -> ltb neg_infinity (integral c) = true ->
  integral (anti_windup m neg_zero c) = neg_infinity
  /\ is_nan (neg_zero * integral (anti_windup m neg_zero c)) = true.
Proof.
  intros Hm HI. rewrite ltb_spec, zero_spec in Hm.
  destruct (SF_div_zero _ true Hm) as (Hhi & _).
  assert (E : m / neg_zero = neg_infinity).
  { rewrite <- (SF2Prim_Prim2SF (m / neg_zero)), div_spec.
    change (Prim2SF neg_zero) with (S754_zero true).
    rewrite Hhi. reflexivity. }
  unfold anti_windup. rewrite E, HI. cbn [integral set_integral].
  split; reflexivity.
Qed.

(** The deadband zeroes the output and keeps the error. *)
Lemma deadband_axis64 (c : control_variables_t) :
  position_error (deadband c) = position_error c
  /\ (ltb (abs (position_error c)) 0.02 = true -> pid_output (deadband c) = 0).
Proof.
  unfold deadband.
  destruct (ltb (abs (position_error c)) 0.02); split;
    try reflexivity; discriminate.
Qed.

(** *** Rate limiting *)

(** C4, counterexample: with a thousand steps per degree
    ([max_change_rate] is the binary64 value of 0.005) and the default
    tracking gains, the fourth step towards an azimuth target 400
    degrees away is rate-limited from a previous output of 0.015 to
    0.02, the rounded sum.  The two are further apart than
    [max_change_rate], as numbers (by 2 ^ -60) and as the code would
    compute their distance, 0.005000000000000001. *)
Lemma rate_limit_rounds_past_bound :
  let s := run wait_10ms 3 geared_gimbal (at_angles 0 0 400 0) in
  let i := at_angles 0 0 400 0 in
  let r := max_change_rate (limits s) in
  let prev := pid_output (az_prev_control_vars (vars s)) in
  let post := pid_output (az_current_control_vars
                            (after_rate_limit wait_10ms s i)) in
  ~ rate_bound_as_specified wait_10ms s i
  /\ r = 0.005 /\ prev = 0.015 /\ post = 0.02
  /\ post = prev + r
  /\ (exists a b c : Q,
        value post = Some a /\ value prev = Some b /\ value r = Some c
        /\ (a - b == c + 2 ^ (-60))%Q)
  /\ abs (post - prev) = 0.005000000000000001
  /\ ltb r (abs (post - prev)) = true.
Proof.
  cbv zeta. split.
  - unfold rate_bound_as_specified. intros (H & _).
    vm_compute in H. discriminate H.
  - repeat match goal with |- _ /\ _ => split end;
      try (vm_compute; reflexivity).
    eexists; eexists; eexists.
    repeat match goal with |- _ /\ _ => split end;
      vm_compute; reflexivity.
Qed.

(** C4, as the code has it: in every control step and for both axes,
    where the computed change of the output against the stored
    previous output exceeds [max_change_rate], the output leaves the
    rate-limiting stage as the rounded [previous + max_change_rate]
    for an increase and the rounded [previous - max_change_rate] for a
    decrease; elsewhere it is left as it entered, and the computed
    change is then at most [max_change_rate], unless it is NaN. *)
Theorem rate_limit_bounds_change (wait : float) (s : pid_state)
    (i : step_inputs) :
  rate_limited (max_change_rate (limits s))
    (pid_output (az_prev_control_vars (vars s)))
    (pid_output (az_current_control_vars (after_anti_windup wait s i)))
    (pid_output (az_current_control_vars (after_rate_limit wait s i)))
  /\ rate_limited (max_change_rate (limits s))
       (pid_output (alt_prev_control_vars (vars s)))
       (pid_output (alt_current_control_vars (after_anti_windup wait s i)))
       (pid_output (alt_current_control_vars (after_rate_limit wait s i))).
Proof.
  destruct (stored_prev_outputs64 wait s i) as (Sa & Sb).
  destruct (pid_rate_limit_vars64 (limits s) (after_anti_windup wait s i))
    as (La & Lb).
  fold (after_rate_limit wait s i) in La, Lb.
  rewrite La, Lb, <- Sa, <- Sb.
  split; apply rate_limit_axis64.
Qed.

Lemma rate_limit_bounds_change_witness :
  let s := run wait_10ms 3 geared_gimbal (at_angles 0 0 400 0) in
  let i := at_angles 0 0 400 0 in
  let r := max_change_rate (limits s) in
  let post := after_rate_limit wait_10ms s i in
  pid_output (az_current_control_vars post)
  = pid_output (az_prev_control_vars (vars s)) + r
  /\ pid_output (alt_current_control_vars post)
     = pid_output (alt_current_control_vars (after_anti_windup wait_10ms s i))
  /\ leb (abs (pid_output (alt_current_control_vars post)
               - pid_output (alt_prev_control_vars (vars s)))) r = true.
Proof.
  destruct (rate_limit_bounds_change wait_10ms
              (run wait_10ms 3 geared_gimbal (at_angles 0 0 400 0))
              (at_angles 0 0 400 0)) as ((Ha & _) & (_ & Hb)).
  destruct Ha as (Hup & _); [ vm_compute; reflexivity | ].
  destruct Hb as (Hsame & Hle); [ vm_compute; reflexivity | ].
  split; [ apply Hup; vm_compute; reflexivity | ].
  split; [ exact Hsame | ].
  apply Hle; vm_compute; reflexivity.
Defined.

(** *** Saturation *)

(** C2, as the code has it: in every control step with a bound
    [max_motor_ang] that is not negative (and so not NaN), an output of
    either axis that enters the saturation stage as anything but NaN
    leaves it within the bound, and NaN passes unclamped.  The recorded
    code, [threshold], which is also the code on the log line, tags
    the azimuth output only: it is 1 exactly when the azimuth output
    entering the stage exceeded the bound, 2 exactly when it was below
    minus the bound, and 0 otherwise. *)
Theorem saturation_bounds_and_azimuth_code (wait : float) (s : pid_state)
    (i : step_inputs) :
  leb 0 (max_motor_ang (limits s)) = true ->
  let pre := after_rate_limit wait s i in
  let post := after_saturation wait s i in
  let M := max_motor_ang (limits s) in
  (is_nan (pid_output (az_current_control_vars pre)) = false ->
   within (pid_output (az_current_control_vars post)) M)
  /\ (is_nan (pid_output (alt_current_control_vars pre)) = false ->
      within (pid_output (alt_current_control_vars post)) M)
  /\ (is_nan (pid_output (az_current_control_vars pre)) = true ->
      is_nan (pid_output (az_current_control_vars post)) = true)
  /\ (is_nan (pid_output (alt_current_control_vars pre)) = true ->
      is_nan (pid_output (alt_current_control_vars post)) = true)
  /\ (threshold post = 1%Z
      <-> ltb M (pid_output (az_current_control_vars pre)) = true)
  /\ (threshold post = 2%Z
      <-> ltb (pid_output (az_current_control_vars pre)) (- M) = true)
  /\ (threshold post = 0%Z
      <-> ltb M (pid_output (az_current_control_vars pre)) = false
          /\ ltb (pid_output (az_current_control_vars pre)) (- M) = false)
  /\ log_threshold (snd (pid_update wait s i)) = threshold post
  /\ threshold (vars (fst (fst (pid_update wait s i)))) = threshold post.
Proof.
  intros Hm pre post M.
  destruct (pid_update_parts64 wait s i) as (Hv & _ & Hl).
  destruct (pid_deadband_vars64 post) as (_ & _ & Ht).
  fold (after_deadband wait s i) in Ht.
  destruct (pid_commit_vars64 (after_deadband wait s i)) as (_ & _ & Hc).
  destruct (pid_saturation_vars64 (limits s) pre) as (Sa & Sb & St).
  change (pid_saturation (limits s) pre) with post in Sa, Sb, St.
  fold M in Sa, Sb, St.
  destruct (saturation_code_cases64 M
              (pid_output (az_current_control_vars pre)) Hm)
    as (C1 & C2 & C0).
  rewrite <- St in C1, C2, C0.
  split; [ | split; [ | split; [ | split; [ | split;
    [ | split; [ | split; [ | split ] ] ] ] ] ] ].
  - intros Hn. rewrite Sa. apply saturate_within64; assumption.
  - intros Hn. rewrite Sb. apply saturate_within64; assumption.
  - intros Hn. rewrite Sa.
    destruct (saturate_nan64 M _ Hn) as (E & _). rewrite E. exact Hn.
  - intros Hn. rewrite Sb.
    destruct (saturate_nan64 M _ Hn) as (E & _). rewrite E. exact Hn.
  - exact C1.
  - exact C2.
  - exact C0.
  - rewrite Hl. exact Ht.
  - rewrite Hv, Hc. exact Ht.
Qed.

Lemma saturation_bounds_and_azimuth_code_witness :
  let s := run wait_10ms 7 geared_gimbal (at_angles 0 0 400 0) in
  let i := at_angles 0 0 400 0 in
  let pre := after_rate_limit wait_10ms s i in
  let post := after_saturation wait_10ms s i in
  let j := at_angles 0 0 0 1e307 in
  let pre' := after_rate_limit wait_10ms geared_gimbal j in
  let post' := after_saturation wait_10ms geared_gimbal j in
  let k := at_angles 0 0 0 90 in
  let u := run wait_10ms 7 unit_gimbal k in
  (ltb (max_motor_ang (limits s)) (pid_output (az_current_control_vars pre))
   = true
   /\ within (pid_output (az_current_control_vars post))
        (max_motor_ang (limits s))
   /\ threshold post = 1%Z)
  /\ (is_nan (pid_output (alt_current_control_vars pre')) = true
      /\ is_nan (pid_output (alt_current_control_vars post')) = true
      /\ alt (snd (fst (pid_update wait_10ms geared_gimbal j))) = None)
  /\ (pid_output (alt_current_control_vars (after_rate_limit wait_10ms u k))
      = 40
      /\ pid_output (alt_current_control_vars (after_saturation wait_10ms u k))
         = 35
      /\ threshold (after_saturation wait_10ms u k) = 0%Z).
Proof.
  cbv zeta. split; [ | split ].
  - destruct (saturation_bounds_and_azimuth_code wait_10ms
                (run wait_10ms 7 geared_gimbal (at_angles 0 0 400 0))
                (at_angles 0 0 400 0))
      as (Ha & _ & _ & _ & C1 & _); [ vm_compute; reflexivity | ].
    assert (H : ltb (max_motor_ang
                       (limits (run wait_10ms 7 geared_gimbal
                                  (at_angles 0 0 400 0))))
                  (pid_output
                     (az_current_control_vars
                        (after_rate_limit wait_10ms
                           (run wait_10ms 7 geared_gimbal
                              (at_angles 0 0 400 0))
                           (at_angles 0 0 400 0)))) = true)
      by (vm_compute; reflexivity).
    split; [ exact H | split ].
    + apply Ha. vm_compute. reflexivity.
    + apply C1. exact H.
  - destruct (saturation_bounds_and_azimuth_code wait_10ms geared_gimbal
                (at_angles 0 0 0 1e307))
      as (_ & _ & _ & Hb & _); [ vm_compute; reflexivity | ].
    assert (H : is_nan (pid_output
                          (alt_current_control_vars
                             (after_rate_limit wait_10ms geared_gimbal
                                (at_angles 0 0 0 1e307)))) = true)
      by (vm_compute; reflexivity).
    split; [ exact H | split ].
    + apply Hb. exact H.
    + vm_compute. reflexivity.
  - destruct (saturation_bounds_and_azimuth_code wait_10ms
                (run wait_10ms 7 unit_gimbal (at_angles 0 0 0 90))
                (at_angles 0 0 0 90))
      as (_ & _ & _ & _ & _ & _ & C0 & _); [ vm_compute; reflexivity | ].
    split; [ vm_compute; reflexivity | split; [ vm_compute; reflexivity | ] ].
    apply C0. split; vm_compute; reflexivity.
Defined.

(** *** Anti windup against a zero gain *)

(** Both anti-windup blocks divide [max_motor_ang] by the azimuth
    integral gain.  With a positive bound and a gain of [+0] the
    clamps are infinite and the stage changes nothing.  With a gain of
    [-0] the upper clamp is minus infinity: every integral above it,
    of either axis, leaves the stage as minus infinity, and the
    azimuth integral term [ki * integral] of the next output is
    NaN. *)
Theorem anti_windup_at_zero_gain (wait : float) (s : pid_state)
    (i : step_inputs) :
  ltb 0 (max_motor_ang (limits s)) = true ->
  let k := ki (current_az_pid_values (gains s)) in
  let v0 := after_main wait s i in
  let v := after_anti_windup wait s i in
  (k = 0 ->
   az_current_control_vars v = az_current_control_vars v0
   /\ alt_current_control_vars v = alt_current_control_vars v0)
  /\ (k = neg_zero ->
      (ltb neg_infinity (integral (az_current_control_vars v0)) = true ->
       integral (az_current_control_vars v) = neg_infinity
       /\ is_nan (k * integral (az_current_control_vars v)) = true)
      /\ (ltb neg_infinity (integral (alt_current_control_vars v0)) = true ->
          integral (alt_current_control_vars v) = neg_infinity)).
Proof.
  intros Hm k v0 v.
  destruct (pid_anti_windup_vars64 (gains s) (limits s) v0)
    as (Wa & Wb & _).
  change (pid_anti_windup (gains s) (limits s) v0) with v in Wa, Wb.
  fold k in Wa, Wb. rewrite Wa, Wb. clearbody k v0 v.
  split; intros ->.
  - split; apply anti_windup_plus_zero; exact Hm.
  - split; intros HI.
    + apply anti_windup_minus_zero; assumption.
    + apply anti_windup_minus_zero; assumption.
Qed.

Lemma anti_windup_at_zero_gain_witness :
  let s := override_az 1 neg_zero 0 geared_gimbal in
  let i := at_angles 0 0 10 0 in
  let s1 := fst (fst (pid_update wait_10ms s i)) in
  integral (az_current_control_vars (after_main wait_10ms s i)) = 0.1
  /\ integral (az_current_control_vars (after_anti_windup wait_10ms s i))
     = neg_infinity
  /\ integral (az_prev_control_vars (vars s1)) = neg_infinity
  /\ az (snd (fst (pid_update wait_10ms s i))) = Some 5%Z
  /\ az (snd (fst (pid_update wait_10ms s1 i))) = None.
Proof.
  split; [ vm_compute; reflexivity | ].
  split; [ | repeat match goal with |- _ /\ _ => split end;
             vm_compute; reflexivity ].
  destruct (anti_windup_at_zero_gain wait_10ms
              (override_az 1 neg_zero 0 geared_gimbal) (at_angles 0 0 10 0))
    as (_ & H); [ vm_compute; reflexivity | ].
  destruct (H eq_refl) as (Ha & _).
  apply Ha. vm_compute. reflexivity.
Defined.

(** *** The step after a deadband step *)

(** A step whose azimuth (altitude) error is inside the deadband
    stores a zero output, so the next step restarts from zero: with
    bounds that are not negative, the output it converts to steps for
    that axis is within [max_change_rate] of zero, whatever was
    commanded before, unless the output of that step's PID formula is
    NaN. *)
Theorem deadband_restarts_rate_limit (wait : float) (s : pid_state)
    (i1 i2 : step_inputs) :
  leb 0 (max_motor_ang (limits s)) = true ->
  leb 0 (max_change_rate (limits s)) = true ->
  let s1 := fst (fst (pid_update wait s i1)) in
  let pre2 := after_anti_windup wait s1 i2 in
  let v2 := after_saturation wait s1 i2 in
  (ltb (abs (position_error (az_prev_control_vars (vars s1)))) 0.02 = true ->
   is_nan (pid_output (az_current_control_vars pre2)) = false ->
   within (pid_output (az_current_control_vars v2))
     (max_change_rate (limits s)))
  /\ (ltb (abs (position_error (alt_prev_control_vars (vars s1)))) 0.02
      = true ->
      is_nan (pid_output (alt_current_control_vars pre2)) = false ->
      within (pid_output (alt_current_control_vars v2))
        (max_change_rate (limits s))).
Proof.
  intros Hm Hr s1 pre2 v2.
  destruct (stored_vars64 wait s i1) as (Ea & Eb). fold s1 in Ea, Eb.
  destruct (pid_update_parts64 wait s i1) as (_ & Hl & _). fold s1 in Hl.
  destruct (stored_prev_outputs64 wait s1 i2) as (Pa & Pb).
  fold pre2 in Pa, Pb.
  destruct (pid_rate_limit_vars64 (limits s1) pre2) as (La & Lb).
  destruct (pid_saturation_vars64 (limits s1) (after_rate_limit wait s1 i2))
    as (Sa & Sb & _).
  change (pid_saturation (limits s1) (after_rate_limit wait s1 i2))
    with v2 in Sa, Sb.
  change (pid_rate_limit (limits s1) pre2)
    with (after_rate_limit wait s1 i2) in La, Lb.
  rewrite Hl in Sa, Sb, La, Lb.
  split; intros Hd Hn.
  - rewrite Ea in Hd, Pa.
    destruct (deadband_axis64
                (az_current_control_vars (after_saturation wait s i1)))
      as (Ke & Kz).
    rewrite Ke in Hd. rewrite (Kz Hd) in Pa.
    rewrite Sa, La. apply saturate_shrinks64; [ exact Hm | ].
    apply rate_limit_from_zero64; assumption.
  - rewrite Eb in Hd, Pb.
    destruct (deadband_axis64
                (alt_current_control_vars (after_saturation wait s i1)))
      as (Ke & Kz).
    rewrite Ke in Hd. rewrite (Kz Hd) in Pb.
    rewrite Sb, Lb. apply saturate_shrinks64; [ exact Hm | ].
    apply rate_limit_from_zero64; assumption.
Qed.

Lemma deadband_restarts_rate_limit_witness :
  let s := run wait_10ms 7 geared_gimbal (at_angles 0 0 400 0) in
  let s1 := fst (fst (pid_update wait_10ms s (at_angles 400 0 400 0))) in
  let v2 := after_saturation wait_10ms s1 (at_angles 0 0 400 0) in
  pid_output (az_prev_control_vars (vars s)) = 0.035
  /\ pid_output (az_prev_control_vars (vars s1)) = 0
  /\ pid_output (az_current_control_vars v2) = 0.005
  /\ within (pid_output (az_current_control_vars v2))
       (max_change_rate (limits s)).
Proof.
  split; [ vm_compute; reflexivity | ].
  split; [ vm_compute; reflexivity | ].
  split; [ vm_compute; reflexivity | ].
  destruct (deadband_restarts_rate_limit wait_10ms
              (run wait_10ms 7 geared_gimbal (at_angles 0 0 400 0))
              (at_angles 400 0 400 0) (at_angles 0 0 400 0))
    as (H & _).
  - vm_compute. reflexivity.
  - vm_compute. reflexivity.
  - apply H; vm_compute; reflexivity.
Defined.

End Pid64Facts.

(** ** Invariants of the control step *)
Module PidInvariants.
Import Pid Statements DoubleFacts PidFacts.

(** When the position error of an axis is inside the deadband, the
    output the step stores for it, and for azimuth the output on the
    log line, is zero; the step commands are nevertheless the rounding
    of the outputs as they leave the saturation stage, which the
    deadband does not touch. *)
Theorem deadband_zeroes_stored_output (wait : Q) (s : pid_state)
    (i : step_inputs) :
  let out := pid_update wait s i in
  let a := az_prev_control_vars (vars (fst (fst out))) in
  let b := alt_prev_control_vars (vars (fst (fst out))) in
  (dlt (fabs (position_error a)) (Fin 0.02) = true ->
     pid_output a = Fin 0 /\ log_pid_output (snd out) = Fin 0)
  /\ (dlt (fabs (position_error b)) (Fin 0.02) = true -> pid_output b = Fin 0)
  /\ az (snd (fst out))
     = lround (step_per_deg (limits s)
               * pid_output (az_current_control_vars
                               (after_saturation wait s i)))%dbl
  /\ alt (snd (fst out))
     = lround (step_per_deg (limits s)
               * pid_output (alt_current_control_vars
                               (after_saturation wait s i)))%dbl.
Proof.
  intros out a b.
  destruct (pid_update_pipeline wait s i) as (Ea & Eb & _ & _ & El).
  destruct (pid_update_parts wait s i) as (_ & _ & _ & Hm & _).
  fold out in Ea, Eb, El, Hm. fold a in Ea. fold b in Eb.
  split; [ | split; [ | split ] ].
  - rewrite El, Ea. generalize dependent a. intros a Ea.
    match type of Ea with _ = deadband ?c => generalize c end.
    intros c. destruct (deadband_keeps c) as (K & _). rewrite K.
    unfold deadband. intros H. rewrite H. split; reflexivity.
  - rewrite Eb.
    match goal with |- context [deadband ?c] => generalize c end.
    intros c. destruct (deadband_keeps c) as (K & _). rewrite K.
    unfold deadband. intros H. rewrite H. reflexivity.
  - rewrite Hm. reflexivity.
  - rewrite Hm. reflexivity.
Qed.

Lemma deadband_zeroes_stored_output_witness :
  let out := pid_update wait_10ms unit_gimbal (at_angles 0 0 0.01 0) in
  pid_output (az_prev_control_vars (vars (fst (fst out)))) = Fin 0
  /\ log_pid_output (snd out) = Fin 0.
Proof.
  destruct (deadband_zeroes_stored_output wait_10ms unit_gimbal
              (at_angles 0 0 0.01 0)) as (H & _).
  apply H. vm_compute. reflexivity.
Defined.

(** With a zero control period the derivative of
    [motor_control_step] is a division by zero: on finite gains and
    operands neither the derivative nor the output it returns is
    finite. *)
Theorem zero_period_breaks_output (wait : Q) (pv : pid_values_t)
    (prev cur : control_variables_t) :
  wait == 0 -> finite_gains pv ->
  finite (position_error prev) -> finite (integral prev) ->
  finite (target_position cur) -> finite (current_position cur) ->
  let r := motor_control_step wait pv prev cur in
  is_finite (derivative r) = false /\ is_finite (pid_output r) = false.
Proof.
  intros Hw (G1 & G2 & G3) F1 F2 F3 F4. unfold finite in *.
  apply finite_inv in G1, G2, G3, F1, F2, F3, F4.
  destruct G1 as [p G1], G2 as [k G2], G3 as [d G3], F1 as [pe F1],
    F2 as [pI F2], F3 as [t F3], F4 as [c F4].
  assert (Hz : Qis0 (wait / 1000000000) = true).
  { apply Qis0_true. rewrite Hw. reflexivity. }
  unfold motor_control_step, stabilization_timestep. rsimpl.
  rewrite G1, G2, G3, F1, F2, F3, F4. dsimpl.
  change (Qis0 1000000000) with false. cbv iota. rewrite Hz.
  unfold inf_signed.
  destruct (Qis0 (t + - c + - pe)); [ split; reflexivity | ].
  destruct (Qltb 0 (t + - c + - pe));
    (destruct (Qis0 d); [ split; reflexivity | ]);
    destruct (Qltb 0 d); split; reflexivity.
Qed.

Lemma zero_period_breaks_output_witness :
  let r := motor_control_step 0 {| kp := Fin 1; ki := Fin 0; kd := Fin 0 |}
             zero_vars
             (set_target_position (Fin 10) zero_vars) in
  is_finite (derivative r) = false /\ is_finite (pid_output r) = false.
Proof.
  apply (zero_period_breaks_output 0 {| kp := Fin 1; ki := Fin 0; kd := Fin 0 |}
           zero_vars (set_target_position (Fin 10) zero_vars));
    try reflexivity.
  repeat split.
Defined.

Lemma init_pid_bounded_outputs (spr msf gr : Q) :
  0 < spr * msf * gr ->
  bounded_outputs (fst (init_pid spr msf gr static_state)).
Proof.
  intros Hpos.
  destruct (init_pid_limits spr msf gr static_state Hpos) as (Hl & Hspd).
  unfold bounded_outputs. rewrite Hl. cbn [max_motor_ang].
  assert (H : Qabs 0 <= 35 / (spr * msf * gr / 360)).
  { apply Qabs_Qle_condition.
    assert (0 <= 35 / (spr * msf * gr / 360))
      by (apply Qle_shift_div_l; lra).
    split; lra. }
  split; apply within_fin; exact H.
Qed.

(** [init_pid] on the statics as loaded, for macros whose product is
    positive: it reports success, the factor is the product over 360,
    the motor bound is 35 over the factor and the rate bound 5 over
    it, the active gains are the stored tracking gains, and the state
    is good, with zero stored outputs. *)
Theorem init_pid_establishes (spr msf gr : Q) :
  0 < spr * msf * gr ->
  let s := fst (init_pid spr msf gr static_state) in
  let spd := spr * msf * gr / 360 in
  snd (init_pid spr msf gr static_state) = SUCCESS
  /\ limits s = {| step_per_deg := Fin spd;
                   max_motor_ang := Fin (35 / spd);
                   max_change_rate := Fin (5 / spd) |}
  /\ current_az_pid_values (gains s)
     = track_az_pid_values (gains static_state)
  /\ current_alt_pid_values (gains s)
     = track_alt_pid_values (gains static_state)
  /\ good_state s /\ bounded_outputs s
  /\ pid_output (az_prev_control_vars (vars s)) = Fin 0
  /\ pid_output (alt_prev_control_vars (vars s)) = Fin 0.
Proof.
  intros Hpos s spd.
  destruct (init_pid_limits spr msf gr static_state Hpos) as (Hl & Hspd).
  assert (Hg : good_state s).
  { apply init_pid_good_state; [ exact Hpos | | ]; repeat split. }
  pose proof (init_pid_bounded_outputs spr msf gr Hpos) as Hb.
  fold s in Hl, Hb. fold spd in Hl, Hspd.
  split; [ reflexivity | split; [ exact Hl | ] ].
  split; [ reflexivity | split; [ reflexivity | ] ].
  split; [ exact Hg | split; [ exact Hb | split; reflexivity ] ].
Qed.

Lemma init_pid_establishes_witness :
  let s := fst (init_pid 200 18 100 static_state) in
  limits s = {| step_per_deg := Fin (200 * 18 * 100 / 360);
                max_motor_ang := Fin (35 / (200 * 18 * 100 / 360));
                max_change_rate := Fin (5 / (200 * 18 * 100 / 360)) |}
  /\ good_state s.
Proof.
  destruct (init_pid_establishes 200 18 100) as (_ & Hl & _ & _ & Hg & _).
  - vm_compute. reflexivity.
  - split; [ exact Hl | exact Hg ].
Defined.

End PidInvariants.

(** ** The gain store *)
Module GainStoreFacts.
Import Pid Statements.

Lemma tracking_sets_active (g : gain_store) :
  let g' := fst (change_stabilization_mode 0 g) in
  current_az_pid_values g' = track_az_pid_values g
  /\ current_alt_pid_values g' = track_alt_pid_values g.
Proof. split; reflexivity. Qed.

Lemma stabilization_sets_active (g : gain_store) :
  let g' := fst (change_stabilization_mode 1 g) in
  current_az_pid_values g' = stab_az_pid_values g
  /\ current_alt_pid_values g' = stab_alt_pid_values g.
Proof. split; reflexivity. Qed.

(** A regime change leaves the four stored gain sets alone. *)
Lemma stored_gains_kept (on_off : Z) (g : gain_store) :
  let g' := fst (change_stabilization_mode on_off g) in
  stab_az_pid_values g' = stab_az_pid_values g
  /\ stab_alt_pid_values g' = stab_alt_pid_values g
  /\ track_az_pid_values g' = track_az_pid_values g
  /\ track_alt_pid_values g' = track_alt_pid_values g.
Proof.
  unfold change_stabilization_mode.
  destruct (on_off =? 1)%Z; [ | destruct (on_off =? 0)%Z ]; cbn; auto.
Qed.

(** The transient override touches the active sets only. *)
Lemma override_keeps_stored (motor_id : Z) (p i d : double) (g : gain_store) :
  let g' := fst (change_pid_values motor_id p i d g) in
  stab_az_pid_values g' = stab_az_pid_values g
  /\ stab_alt_pid_values g' = stab_alt_pid_values g
  /\ track_az_pid_values g' = track_az_pid_values g
  /\ track_alt_pid_values g' = track_alt_pid_values g.
Proof.
  unfold change_pid_values.
  destruct (motor_id =? 1)%Z; [ | destruct (motor_id =? 2)%Z ]; cbn; auto.
Qed.

(** C9: whatever the gain store holds, also after a transient override
    of the active sets, the regime change to tracking makes both active
    gain sets the stored tracking sets, the change to stabilization
    makes them the stored stabilization sets, a second call with the
    same argument changes nothing, and stabilization followed by
    tracking gives the state tracking alone gives. *)
Theorem regime_change_restores_stored_gains (g : gain_store) :
  (forall motor_id p i d,
      let g0 := fst (change_pid_values motor_id p i d g) in
      let g' := fst (change_stabilization_mode 0 g0) in
      current_az_pid_values g' = track_az_pid_values g
      /\ current_alt_pid_values g' = track_alt_pid_values g)
  /\ (forall motor_id p i d,
      let g0 := fst (change_pid_values motor_id p i d g) in
      let g' := fst (change_stabilization_mode 1 g0) in
      current_az_pid_values g' = stab_az_pid_values g
      /\ current_alt_pid_values g' = stab_alt_pid_values g)
  /\ (let g' := fst (change_stabilization_mode 0 g) in
      current_az_pid_values g' = track_az_pid_values g
      /\ current_alt_pid_values g' = track_alt_pid_values g)
  /\ (let g' := fst (change_stabilization_mode 1 g) in
      current_az_pid_values g' = stab_az_pid_values g
      /\ current_alt_pid_values g' = stab_alt_pid_values g)
  /\ fst (change_stabilization_mode 0 (fst (change_stabilization_mode 0 g)))
     = fst (change_stabilization_mode 0 g)
  /\ fst (change_stabilization_mode 1 (fst (change_stabilization_mode 1 g)))
     = fst (change_stabilization_mode 1 g)
  /\ fst (change_stabilization_mode 0 (fst (change_stabilization_mode 1 g)))
     = fst (change_stabilization_mode 0 g).
Proof.
  repeat split.
  - destruct (override_keeps_stored motor_id p i d g) as (_ & _ & H & _).
    cbn in *. now rewrite <- H.
  - destruct (override_keeps_stored motor_id p i d g) as (_ & _ & _ & H).
    cbn in *. now rewrite <- H.
  - destruct (override_keeps_stored motor_id p i d g) as (H & _).
    cbn in *. now rewrite <- H.
  - destruct (override_keeps_stored motor_id p i d g) as (_ & H & _).
    cbn in *. now rewrite <- H.
Qed.

End GainStoreFacts.

(** ** The mode registry *)
Module ModeFacts.
Import Mode Gyro Statements.

Lemma get_after_set (ch : mode_t) (r : registry) :
  get_mode (set_mode ch r) = ch.
Proof. reflexivity. Qed.

(** C10: once [init_mode] has succeeded the registry holds [normal],
    which is not [RESET], and [get_mode] returns it; a poller thread
    that is signalled while the registry is still so passes the loop
    test and runs a sampling cycle instead of going back to wait. *)
Theorem init_mode_lets_poller_sample (res : Z) (r0 : registry) (t : thread)
    (ret : FT_STATUS) (received : list Z) :
  snd (init_mode res r0) = SUCCESS ->
  pc t = Cond_wait ->
  let r := fst (init_mode res r0) in
  get_mode r = normal
  /\ normal <> RESET
  /\ pc (signal t) = Loop_head
  /\ thread_step r ret received (signal t)
     = {| pc := Loop_head; cycles := S (cycles t);
          state := fst (active_m ret received (state t)) |}.
Proof.
  intros Hok Hpc r.
  assert (Hr : get_mode r = normal).
  { unfold r, init_mode. now destruct (res =? 0)%Z. }
  repeat split.
  - exact Hr.
  - discriminate.
  - unfold signal. now rewrite Hpc.
  - unfold thread_step, signal. rewrite Hpc. cbn. now rewrite Hr.
Qed.

Lemma init_mode_lets_poller_sample_witness :
  let t := {| pc := Cond_wait; cycles := 0; state := idle_poller |} in
  let r := fst (init_mode 0 {| mode := RESET |}) in
  get_mode r = normal
  /\ normal <> RESET
  /\ pc (signal t) = Loop_head
  /\ thread_step r FT_OK [] (signal t)
     = {| pc := Loop_head; cycles := 1;
          state := fst (active_m FT_OK [] idle_poller) |}.
Proof.
  apply (init_mode_lets_poller_sample 0 {| mode := RESET |}
           {| pc := Cond_wait; cycles := 0; state := idle_poller |});
    reflexivity.
Defined.

End ModeFacts.

(** ** Gain telecommands and reset *)
Module GainCommands.
Import Pid Statements DoubleFacts PidFacts.

(** [change_pid_values] answers 0 exactly for motor ids 1 and 2; then
    it replaces the active set of that motor and nothing else; for any
    other id it answers 1 and the whole gain store is as before.  It
    never writes a stored set. *)
Theorem change_pid_values_selector (motor_id : Z) (p i d : double)
    (g : gain_store) :
  let r := change_pid_values motor_id p i d g in
  let new := {| kp := p; ki := i; kd := d |} in
  (snd r = 0%Z <-> motor_id = 1%Z \/ motor_id = 2%Z)
  /\ (snd r <> 0%Z -> snd r = 1%Z /\ fst r = g)
  /\ (motor_id = 1%Z ->
      current_az_pid_values (fst r) = new
      /\ current_alt_pid_values (fst r) = current_alt_pid_values g)
  /\ (motor_id = 2%Z ->
      current_alt_pid_values (fst r) = new
      /\ current_az_pid_values (fst r) = current_az_pid_values g)
  /\ stab_az_pid_values (fst r) = stab_az_pid_values g
  /\ stab_alt_pid_values (fst r) = stab_alt_pid_values g
  /\ track_az_pid_values (fst r) = track_az_pid_values g
  /\ track_alt_pid_values (fst r) = track_alt_pid_values g.
Proof.
  unfold change_pid_values.
  destruct (Z.eqb_spec motor_id 1) as [E1 | E1];
    [ | destruct (Z.eqb_spec motor_id 2) as [E2 | E2] ]; cbn;
    repeat split; intros; try reflexivity; try lia; try tauto.
Qed.

(** [change_mode_pid_values] answers 0 exactly when the motor id and
    the mode id are both 1 or 2, and 1 otherwise with the gain store
    as before.  It never changes an active set.  A stored set it wrote
    becomes the active one at the next matching regime change: mode id
    1 (target acquisition) is activated by
    [change_stabilization_mode 0], mode id 2 by
    [change_stabilization_mode 1]. *)
Theorem change_mode_pid_values_selector (motor_id mode_id : Z)
    (p i d : double) (g : gain_store) :
  let r := change_mode_pid_values motor_id mode_id p i d g in
  let new := {| kp := p; ki := i; kd := d |} in
  let tracking := fst (change_stabilization_mode 0 (fst r)) in
  let stabilization := fst (change_stabilization_mode 1 (fst r)) in
  (snd r = 0%Z <-> (motor_id = 1%Z \/ motor_id = 2%Z)
                   /\ (mode_id = 1%Z \/ mode_id = 2%Z))
  /\ (snd r <> 0%Z -> snd r = 1%Z /\ fst r = g)
  /\ current_az_pid_values (fst r) = current_az_pid_values g
  /\ current_alt_pid_values (fst r) = current_alt_pid_values g
  /\ (motor_id = 1%Z -> mode_id = 1%Z ->
      current_az_pid_values tracking = new
      /\ current_az_pid_values stabilization = stab_az_pid_values g)
  /\ (motor_id = 1%Z -> mode_id = 2%Z ->
      current_az_pid_values stabilization = new
      /\ current_az_pid_values tracking = track_az_pid_values g)
  /\ (motor_id = 2%Z -> mode_id = 1%Z ->
      current_alt_pid_values tracking = new
      /\ current_alt_pid_values stabilization = stab_alt_pid_values g)
  /\ (motor_id = 2%Z -> mode_id = 2%Z ->
      current_alt_pid_values stabilization = new
      /\ current_alt_pid_values tracking = track_alt_pid_values g).
Proof.
  unfold change_mode_pid_values.
  destruct (Z.eqb_spec motor_id 1) as [E1 | E1];
    [ | destruct (Z.eqb_spec motor_id 2) as [E2 | E2] ];
    try (destruct (Z.eqb_spec mode_id 1) as [M1 | M1];
         [ | destruct (Z.eqb_spec mode_id 2) as [M2 | M2] ]);
    cbn; repeat split; intros; try reflexivity; try lia; try tauto.
Qed.

(** [change_stabilization_mode] answers 0 exactly for the arguments 0
    and 1; for any other argument it answers 1 and the gain store,
    active sets included, is as before. *)
Theorem change_stabilization_mode_selector (on_off : Z) (g : gain_store) :
  let r := change_stabilization_mode on_off g in
  (snd r = 0%Z <-> on_off = 0%Z \/ on_off = 1%Z)
  /\ (snd r <> 0%Z -> snd r = 1%Z /\ fst r = g).
Proof.
  unfold change_stabilization_mode.
  destruct (Z.eqb_spec on_off 1) as [E1 | E1];
    [ | destruct (Z.eqb_spec on_off 0) as [E0 | E0] ]; cbn;
    repeat split; intros; try reflexivity; try lia; try tauto.
Qed.

Lemma motor_control_step_fields (wait : Q) (pv : pid_values_t)
    (prev cur : control_variables_t) :
  let r := motor_control_step wait pv prev cur in
  let e := (target_position cur - current_position cur)%dbl in
  position_error r = e
  /\ integral r = (integral prev + e * stabilization_timestep wait)%dbl
  /\ derivative r
     = ((e - position_error prev) / stabilization_timestep wait)%dbl.
Proof. repeat split. Qed.

(** [pid_reset] drops the history of a run: in the control step that
    follows it, the integral of each axis is the new error times the
    period and the derivative is the new error over the period,
    whatever was accumulated before.  It leaves the stored outputs,
    which rate limiting refers to, the gains and the limits as they
    were. *)
Theorem reset_then_step (wait : Q) (s : pid_state) (i : step_inputs) :
  let s' := execute wait s Reset in
  let dt := stabilization_timestep wait in
  let ea := (tracking_az i - att_az (cur_att i))%dbl in
  let eb := (tracking_alt i - att_alt (cur_att i))%dbl in
  let v := after_main wait s' i in
  integral (az_current_control_vars v) = (Fin 0 + ea * dt)%dbl
  /\ integral (alt_current_control_vars v) = (Fin 0 + eb * dt)%dbl
  /\ derivative (az_current_control_vars v) = ((ea - Fin 0) / dt)%dbl
  /\ derivative (alt_current_control_vars v) = ((eb - Fin 0) / dt)%dbl
  /\ pid_output (az_prev_control_vars (vars s'))
     = pid_output (az_prev_control_vars (vars s))
  /\ pid_output (alt_prev_control_vars (vars s'))
     = pid_output (alt_prev_control_vars (vars s))
  /\ gains s' = gains s /\ limits s' = limits s.
Proof.
  intros s' dt ea eb v.
  destruct (pid_main_vars wait (gains s') (pid_read_inputs i (vars s')))
    as (Ma & Mb & _).
  change (pid_main wait (gains s') (pid_read_inputs i (vars s'))) with v
    in Ma, Mb.
  destruct (read_inputs_current i (vars s')) as (Ca & Ta & Cb & Tb).
  destruct (read_inputs_az_prev i (vars s')) as (_ & Ia & Ea).
  destruct (read_inputs_alt_prev i (vars s')) as (_ & Ib & Eb).
  assert (Za : integral (az_prev_control_vars (vars s')) = Fin 0)
    by (destruct s as [g l [ap ac bp bc st ss th fi]]; reflexivity).
  assert (Zb : integral (alt_prev_control_vars (vars s')) = Fin 0)
    by (destruct s as [g l [ap ac bp bc st ss th fi]]; reflexivity).
  assert (Ya : position_error (az_prev_control_vars (vars s')) = Fin 0)
    by (destruct s as [g l [ap ac bp bc st ss th fi]]; reflexivity).
  assert (Yb : position_error (alt_prev_control_vars (vars s')) = Fin 0)
    by (destruct s as [g l [ap ac bp bc st ss th fi]]; reflexivity).
  rewrite Ya in Ea. rewrite Yb in Eb.
  assert (Ea' : position_error
                  (az_prev_control_vars (pid_read_inputs i (vars s'))) = Fin 0)
    by (rewrite Ea; now destruct (first_iteration (vars s'))).
  assert (Eb' : position_error
                  (alt_prev_control_vars (pid_read_inputs i (vars s'))) = Fin 0)
    by (rewrite Eb; now destruct (first_iteration (vars s'))).
  rewrite Ma, Mb.
  destruct (motor_control_step_fields wait (current_az_pid_values (gains s'))
              (az_prev_control_vars (pid_read_inputs i (vars s')))
              (az_current_control_vars (pid_read_inputs i (vars s'))))
    as (_ & Ra & Da).
  destruct (motor_control_step_fields wait (current_alt_pid_values (gains s'))
              (alt_prev_control_vars (pid_read_inputs i (vars s')))
              (alt_current_control_vars (pid_read_inputs i (vars s'))))
    as (_ & Rb & Db).
  rewrite Ra, Rb, Da, Db, Ia, Ib, Za, Zb, Ea', Eb', Ca, Ta, Cb, Tb.
  repeat split; destruct s as [g l [ap ac bp bc st ss th fi]]; reflexivity.
Qed.

End GainCommands.

(** ** The poller thread under the mode registry *)
Module ThreadFacts.
Import Mode Gyro Statements.
Local Open Scope Z_scope.

(** [init_mode] reports success exactly when the mutex initialisation
    returned 0, but it has stored [normal] before that is known: the
    registry holds [normal] after a failed initialisation too, whatever
    mode was set before, and a later [set_mode] is what [get_mode]
    returns. *)
Theorem init_mode_status (res : Z) (r : registry) (ch : mode_t) :
  (snd (init_mode res r) = SUCCESS <-> res = 0%Z)
  /\ (snd (init_mode res r) = FAILURE <-> res <> 0%Z)
  /\ get_mode (fst (init_mode res (set_mode ch r))) = normal
  /\ get_mode (set_mode ch (fst (init_mode res r))) = ch.
Proof.
  unfold init_mode.
  destruct (Z.eqb_spec res 0); cbn; repeat split; intros;
    try reflexivity; try discriminate; try contradiction; try assumption.
Qed.

Lemma waiting_thread_stays (r : registry) (l : list (FT_STATUS * list Z))
    (t : thread) :
  pc t = Cond_wait -> thread_run r l t = t.
Proof.
  intros Hpc. unfold thread_run.
  induction l as [ | x l IH ]; cbn [fold_left]; [ reflexivity | ].
  unfold thread_step at 2. rewrite Hpc. exact IH.
Qed.

(** Once the registry holds [RESET], a thread at the head of its
    sampling loop goes back to waiting at its next turn and stays
    there whatever the transport delivers: no sampling cycle runs and
    the poller's statics, the shared reading included, are as they
    were. *)
Theorem reset_idles_thread (r : registry) (x : FT_STATUS * list Z)
    (l : list (FT_STATUS * list Z)) (t : thread) :
  get_mode r = RESET ->
  thread_run r (x :: l) t
  = {| pc := Cond_wait; cycles := cycles t; state := state t |}.
Proof.
  intros Hr. unfold thread_run. cbn [fold_left].
  fold (thread_run r l (thread_step r (fst x) (snd x) t)).
  unfold thread_step. destruct (pc t) eqn:Hpc.
  - rewrite waiting_thread_stays by exact Hpc.
    destruct t as [pc0 c0 s0]. cbn in *. now subst.
  - rewrite Hr. cbn [mode_eqb]. now rewrite waiting_thread_stays.
Qed.

Lemma reset_idles_thread_witness :
  thread_run {| mode := RESET |}
    [(FT_OK, datagram (0, 0, 1) (0, 0, 2) (0, 0, 3) 0 0 0 0 13 10);
     (FT_OK, datagram (0, 0, 4) (0, 0, 5) (0, 0, 6) 0 0 0 0 13 10)]
    {| pc := Loop_head; cycles := 3%nat; state := idle_poller |}
  = {| pc := Cond_wait; cycles := 3%nat; state := idle_poller |}.
Proof.
  apply (reset_idles_thread {| mode := RESET |}
           (FT_OK, datagram (0, 0, 1) (0, 0, 2) (0, 0, 3) 0 0 0 0 13 10)).
  reflexivity.
Defined.

(** While the registry holds anything but [RESET], a thread at the
    head of its sampling loop runs one sampling cycle per turn and
    stays in the loop: after [n] turns it has run [n] more cycles. *)
Theorem sampling_thread_cycles (r : registry)
    (l : list (FT_STATUS * list Z)) (t : thread) :
  get_mode r <> RESET -> pc t = Loop_head ->
  pc (thread_run r l t) = Loop_head
  /\ cycles (thread_run r l t) = (cycles t + length l)%nat.
Proof.
  intros Hr. unfold thread_run. revert t.
  induction l as [ | x l IH ]; intros t Hpc; cbn [fold_left length].
  - split; [ exact Hpc | lia ].
  - assert (Hstep : thread_step r (fst x) (snd x) t
                    = {| pc := Loop_head; cycles := S (cycles t);
                         state := fst (active_m (fst x) (snd x) (state t)) |}).
    { unfold thread_step. rewrite Hpc.
      destruct (get_mode r); try contradiction; reflexivity. }
    rewrite Hstep.
    destruct (IH {| pc := Loop_head; cycles := S (cycles t);
                    state := fst (active_m (fst x) (snd x) (state t)) |}
                eq_refl) as (H1 & H2).
    split; [ exact H1 | rewrite H2; cbn [cycles]; lia ].
Qed.

Lemma sampling_thread_cycles_witness :
  let t := {| pc := Loop_head; cycles := 3%nat; state := idle_poller |} in
  let l := [(FT_OK, datagram (0, 0, 1) (0, 0, 2) (0, 0, 3) 0 0 0 0 13 10);
            (FT_ERROR 4, [])] in
  pc (thread_run {| mode := normal |} l t) = Loop_head
  /\ cycles (thread_run {| mode := normal |} l t) = 5%nat.
Proof.
  apply (sampling_thread_cycles {| mode := normal |}
           [(FT_OK, datagram (0, 0, 1) (0, 0, 2) (0, 0, 3) 0 0 0 0 13 10);
            (FT_ERROR 4, [])]
           {| pc := Loop_head; cycles := 3%nat; state := idle_poller |}).
  - discriminate.
  - reflexivity.
Defined.

End ThreadFacts.

(** ** The mutexes of the PID component *)
Module LockFacts.
Import PidLocks.
Local Open Scope Z_scope.

Ltac lock_cases l :=
  destruct l as [[ | ] [ | ] [ | ] [ | ]].

Ltac unfold_calls :=
  unfold init_pid, pid_update, change_pid_values, change_mode_pid_values,
    change_stabilization_mode, pid_reset, motor_control_step in *.

(** No call frees [alt_pid_values_mutex] without having locked it
    first. *)
Lemma call_keeps_alt_pid_values (c : entry) (l : locks) :
  alt_pid_values l = true -> alt_pid_values (locks_left (call c l)) = true.
Proof.
  intros H. destruct c as [ | | m | m k | o | ]; cbn [call]; unfold_calls;
    repeat match goal with
           | |- context [(?a =? ?b)] => destruct (a =? b)
           end;
    lock_cases l; try discriminate H; reflexivity.
Qed.

(** With [alt_pid_values_mutex] locked, a call that takes it is left
    waiting, for it or for a mutex it takes earlier. *)
Lemma call_waits (c : entry) (l : locks) :
  alt_pid_values l = true -> takes_alt_pid_values c = true ->
  exists m h, call c l = Waits m h.
Proof.
  intros H Hc.
  destruct c as [ | | m | m k | o | ]; cbn [call takes_alt_pid_values] in *;
    unfold_calls; try discriminate Hc.
  - lock_cases l; try discriminate H; eexists; eexists; reflexivity.
  - lock_cases l; try discriminate H; eexists; eexists; reflexivity.
  - apply Z.eqb_eq in Hc. subst m.
    lock_cases l; try discriminate H; eexists; eexists; reflexivity.
  - apply Z.eqb_eq in Hc. subst m.
    lock_cases l; try discriminate H; eexists; eexists; reflexivity.
  - destruct (o =? 1); [ | destruct (o =? 0); [ | discriminate Hc ] ];
      lock_cases l; try discriminate H; eexists; eexists; reflexivity.
Qed.

Lemma calls_keep_alt_pid_values (cs : list entry) (l : locks) :
  alt_pid_values l = true -> alt_pid_values (calls cs l) = true.
Proof.
  revert l. unfold calls.
  induction cs as [ | c cs IH ]; intros l H; cbn [fold_left].
  - exact H.
  - apply IH. apply call_keeps_alt_pid_values. exact H.
Qed.

(** [change_mode_pid_values] for the altitude motor and a mode id that
    is neither 1 nor 2 returns 1 with [alt_pid_values_mutex] still
    locked: the branch unlocks the azimuth mutex instead, which frees
    it if it was locked.  When the other mutexes were free, every
    entry point that takes the altitude mutex is from then on left
    waiting for it: a control step, which waits with both
    control-variable mutexes locked, so that [pid_reset] is left
    waiting in turn; a regime change; [init_pid]; and a gain change
    for the altitude motor. *)
Theorem wrong_mode_leaks_altitude_mutex (mode_id : Z) (l : locks) :
  mode_id <> 1 -> mode_id <> 2 -> alt_pid_values l = false ->
  let leaked := set_locked az_pid_values_mutex false
                  (set_locked alt_pid_values_mutex true l) in
  change_mode_pid_values 2 mode_id l = Returns 1 leaked
  /\ alt_pid_values leaked = true /\ az_pid_values leaked = false
  /\ (az_control_vars l = false -> alt_control_vars l = false ->
      let stuck := {| az_pid_values := false; alt_pid_values := true;
                      az_control_vars := true; alt_control_vars := true |} in
      pid_update leaked = Waits alt_pid_values_mutex stuck
      /\ pid_reset stuck = Waits az_control_vars_mutex stuck
      /\ change_stabilization_mode 0 leaked = Waits alt_pid_values_mutex leaked
      /\ change_stabilization_mode 1 leaked = Waits alt_pid_values_mutex leaked
      /\ init_pid leaked = Waits alt_pid_values_mutex leaked
      /\ change_pid_values 2 leaked = Waits alt_pid_values_mutex leaked
      /\ (forall k, change_mode_pid_values 2 k leaked
                    = Waits alt_pid_values_mutex leaked)).
Proof.
  intros H1 H2 Hl leaked.
  assert (E1 : (mode_id =? 1) = false) by (apply Z.eqb_neq; exact H1).
  assert (E2 : (mode_id =? 2) = false) by (apply Z.eqb_neq; exact H2).
  split; [ | split; [ | split ] ].
  - unfold change_mode_pid_values. rewrite E1, E2. subst leaked.
    lock_cases l; try discriminate Hl; reflexivity.
  - subst leaked. lock_cases l; reflexivity.
  - subst leaked. lock_cases l; reflexivity.
  - intros Ha Hb stuck. subst leaked stuck.
    lock_cases l; try discriminate Hl; try discriminate Ha;
      try discriminate Hb;
      repeat match goal with |- _ /\ _ => split end; reflexivity.
Qed.

Lemma wrong_mode_leaks_altitude_mutex_witness :
  let leaked := {| az_pid_values := false; alt_pid_values := true;
                   az_control_vars := false; alt_control_vars := false |} in
  change_mode_pid_values 2 3 all_free = Returns 1 leaked
  /\ change_stabilization_mode 0 leaked = Waits alt_pid_values_mutex leaked
  /\ change_mode_pid_values 2 0
       {| az_pid_values := true; alt_pid_values := false;
          az_control_vars := false; alt_control_vars := false |}
     = Returns 1 leaked.
Proof.
  destruct (wrong_mode_leaks_altitude_mutex 3 all_free) as (H & _ & _ & W);
    [ discriminate | discriminate | reflexivity | ].
  destruct (W eq_refl eq_refl) as (_ & _ & W0 & _).
  destruct (wrong_mode_leaks_altitude_mutex 0
              {| az_pid_values := true; alt_pid_values := false;
                 az_control_vars := false; alt_control_vars := false |})
    as (H' & _); [ discriminate | discriminate | reflexivity | ].
  split; [ exact H | split; [ exact W0 | exact H' ] ].
Defined.

(** Every call but one is balanced: when it returns, the locks are as
    it found them; the exception is the altitude branch of
    [change_mode_pid_values] on a wrong mode id.  A locked
    [alt_pid_values_mutex] is never freed: whatever calls follow, from
    whichever threads, it stays locked, and each of them that takes it
    is left waiting. *)
Theorem locks_balanced_but_for_wrong_mode :
  (forall c l l', call c l = Returns tt l' ->
     l' = l
     \/ exists mode_id,
          c = Change_mode_pid_values 2 mode_id
          /\ mode_id <> 1 /\ mode_id <> 2
          /\ l' = set_locked az_pid_values_mutex false
                    (set_locked alt_pid_values_mutex true l))
  /\ (forall cs l, alt_pid_values l = true ->
        alt_pid_values (calls cs l) = true)
  /\ (forall cs c l, alt_pid_values l = true ->
        takes_alt_pid_values c = true ->
        exists m h, call c (calls cs l) = Waits m h).
Proof.
  split; [ | split ].
  - intros c l l' H.
    destruct c as [ | | m | m k | o | ]; cbn [call] in H; unfold_calls.
    + left. lock_cases l; cbv in H; congruence.
    + left. lock_cases l; cbv in H; congruence.
    + left. destruct (m =? 1); [ | destruct (m =? 2) ];
        lock_cases l; cbv in H; congruence.
    + destruct (m =? 1).
      * left. destruct (k =? 1); [ | destruct (k =? 2) ];
          lock_cases l; cbv in H; congruence.
      * destruct (Z.eqb_spec m 2) as [-> | _ ].
        -- destruct (Z.eqb_spec k 1);
             [ left; lock_cases l; cbv in H; congruence | ].
           destruct (Z.eqb_spec k 2);
             [ left; lock_cases l; cbv in H; congruence | ].
           right. exists k.
           repeat match goal with |- _ /\ _ => split end; auto.
           lock_cases l; cbv in H |- *; congruence.
        -- left. cbv in H. congruence.
    + left. destruct (o =? 1); [ | destruct (o =? 0) ];
        lock_cases l; cbv in H; congruence.
    + left. lock_cases l; cbv in H; congruence.
  - exact calls_keep_alt_pid_values.
  - intros cs c l H Hc. apply call_waits; [ | exact Hc ].
    apply calls_keep_alt_pid_values. exact H.
Qed.

End LockFacts.

(** ** The gyroscope poller *)
Module GyroFacts.
Import Mode Gyro Statements.
Local Open Scope Z_scope.

Section Bytes.

(** A byte below a shifted value: the bitwise or is a sum. *)
Lemma lor_shiftl_byte (a b : Z) :
  0 <= a < 256 -> Z.lor a (Z.shiftl b 8) = a + 256 * b.
Proof.
  intros Ha.
  rewrite Z.shiftl_mul_pow2 by lia.
  rewrite <- Z.lxor_lor, <- Z.add_nocarry_lxor; try lia.
  - apply Z.bits_inj'. intros n Hn.
    rewrite Z.land_spec, Z.bits_0.
    destruct (Z.ltb_spec n 8).
    + rewrite (Z.mul_pow2_bits_low b 8 n) by lia. apply andb_false_r.
    + rewrite <- (Z.mod_small a (2 ^ 8)) by (change (2 ^ 8) with 256; lia).
      rewrite Z.mod_pow2_bits_high by lia. reflexivity.
  - apply Z.bits_inj'. intros n Hn.
    rewrite Z.land_spec, Z.bits_0.
    destruct (Z.ltb_spec n 8).
    + rewrite (Z.mul_pow2_bits_low b 8 n) by lia. apply andb_false_r.
    + rewrite <- (Z.mod_small a (2 ^ 8)) by (change (2 ^ 8) with 256; lia).
      rewrite Z.mod_pow2_bits_high by lia. reflexivity.
Qed.

(** The four bytes of the buffer, least significant first, as a sum. *)
Lemma int32_of_buffer_sum (b0 b1 b2 b3 : Z) :
  0 <= b0 < 256 -> 0 <= b1 < 256 -> 0 <= b2 < 256 -> 0 <= b3 < 256 ->
  int32_of_buffer b0 b1 b2 b3 =
  let u := b0 + 256 * (b1 + 256 * (b2 + 256 * b3)) in
  if u <? 2 ^ 31 then u else u - 2 ^ 32.
Proof.
  intros H0 H1 H2 H3. unfold int32_of_buffer.
  replace (Z.lor b0 (Z.lor (Z.shiftl b1 8)
             (Z.lor (Z.shiftl b2 16) (Z.shiftl b3 24))))
    with (Z.lor b0 (Z.shiftl (Z.lor b1 (Z.shiftl (Z.lor b2 (Z.shiftl b3 8)) 8)) 8)).
  - now rewrite !lor_shiftl_byte.
  - rewrite !Z.shiftl_lor, !Z.shiftl_shiftl by lia. reflexivity.
Qed.

(** Bit 7 of a byte is its being at least 128. *)
Lemma sign_bit_of_byte (b : Z) :
  0 <= b < 256 -> (Z.land b 0x80 =? 0) = (b <? 128).
Proof.
  intros Hb.
  assert (Hall : forallb (fun n => Bool.eqb (Z.land (Z.of_nat n) 0x80 =? 0)
                                    (Z.of_nat n <? 128))
                   (seq 0 256) = true) by (vm_compute; reflexivity).
  rewrite forallb_forall in Hall.
  specialize (Hall (Z.to_nat b)).
  rewrite Z2Nat.id in Hall by lia.
  apply eqb_prop, Hall, in_seq. lia.
Qed.

Lemma land_255 (v : Z) : Z.land v 0xFF = v mod 256.
Proof. change 0xFF with (Z.ones 8). now rewrite Z.land_ones by lia. Qed.

End Bytes.

(** C6: for every signed 24-bit value, the three datagram bytes that
    encode it most significant first, placed at offsets [1+3i], [2+3i]
    and [3+3i], are reassembled and sign-extended by the poller to that
    same value. *)
Theorem sample_encode24 (v : Z) (d : list Z) (ii : nat) :
  - 2 ^ 23 <= v < 2 ^ 23 ->
  (byte_at d (1 + 3 * ii), byte_at d (2 + 3 * ii), byte_at d (3 + 3 * ii))
  = encode24 v ->
  sample d ii = v.
Proof.
  intros Hv Henc. unfold encode24 in Henc.
  assert (E2 : byte_at d (1 + 3 * ii) = Z.land (Z.shiftr v 16) 0xFF)
    by congruence.
  assert (E1 : byte_at d (2 + 3 * ii) = Z.land (Z.shiftr v 8) 0xFF)
    by congruence.
  assert (E0 : byte_at d (3 + 3 * ii) = Z.land v 0xFF) by congruence.
  clear Henc. unfold sample. rewrite E2, E1, E0.
  rewrite !land_255, !Z.shiftr_div_pow2 by lia.
  change (2 ^ 16) with 65536. change (2 ^ 8) with 256.
  assert (B2 : 0 <= (v / 65536) mod 256 < 256) by (apply Z.mod_pos_bound; lia).
  assert (B1 : 0 <= (v / 256) mod 256 < 256) by (apply Z.mod_pos_bound; lia).
  assert (B0 : 0 <= v mod 256 < 256) by (apply Z.mod_pos_bound; lia).
  rewrite sign_bit_of_byte by exact B2.
  change (2 ^ 23) with 8388608 in Hv.
  destruct (Z.ltb_spec ((v / 65536) mod 256) 128) as [Hs | Hs];
    rewrite int32_of_buffer_sum by lia; cbv zeta;
    change (2 ^ 31) with 2147483648; change (2 ^ 32) with 4294967296;
    match goal with |- context [?a <? ?b] => destruct (Z.ltb_spec a b) end;
    Z.div_mod_to_equations; lia.
Qed.

Lemma sample_encode24_witness :
  sample (datagram (encode24 (-2)) (encode24 8388607) (encode24 (-8388608))
            0 0 0 0 13 10) 0 = -2.
Proof.
  apply (sample_encode24 (-2)); [ vm_compute; split; [ discriminate | reflexivity ] | reflexivity ].
Defined.

(** C8: when the two last bytes of the datagram are not a carriage
    return followed by a line feed, the cycle leaves the shared reading
    as it was: rates, temperature and out-of-date flag. *)
Theorem bad_terminator_keeps_shared (ret : FT_STATUS) (d : list Z) (p : poller) :
  byte_at d 25 <> 13 \/ byte_at d 26 <> 10 ->
  shared (fst (active_m ret d p)) = shared p
  /\ gyro (fst (active_m ret d p)) = gyro p.
Proof.
  intros H. unfold active_m, byte_at in *. destruct ret; cbn.
  - destruct (Z.eqb_spec (nth 25 d 0) 13), (Z.eqb_spec (nth 26 d 0) 10);
      cbn; auto.
    exfalso. destruct H; auto.
  - auto.
Qed.

Lemma bad_terminator_keeps_shared_witness :
  let d := datagram (0, 0, 1) (0, 0, 2) (0, 0, 3) 0 0 0 0 10 13 in
  shared (fst (active_m FT_OK d idle_poller)) = shared idle_poller
  /\ gyro (fst (active_m FT_OK d idle_poller)) = gyro idle_poller.
Proof.
  apply (bad_terminator_keeps_shared FT_OK
           (datagram (0, 0, 1) (0, 0, 2) (0, 0, 3) 0 0 0 0 10 13)).
  left. vm_compute. discriminate.
Defined.

(** The rate decoded for a channel whose three bytes are the encoding
    of the signed 24-bit value [v]: [v] over 16384. *)
Lemma decode_rate_of_encoding (v : Z) (d : list Z) (ii : nat) :
  - 2 ^ 23 <= v < 2 ^ 23 ->
  (byte_at d (1 + 3 * ii), byte_at d (2 + 3 * ii), byte_at d (3 + 3 * ii))
  = encode24 v ->
  decode_rate d ii = Fin (inject_Z v / 16384)%Q.
Proof.
  intros Hv Henc. unfold decode_rate.
  replace (sample d ii) with v; [ reflexivity | ].
  unfold encode24 in Henc.
  assert (E2 : byte_at d (1 + 3 * ii) = Z.land (Z.shiftr v 16) 0xFF)
    by congruence.
  assert (E1 : byte_at d (2 + 3 * ii) = Z.land (Z.shiftr v 8) 0xFF)
    by congruence.
  assert (E0 : byte_at d (3 + 3 * ii) = Z.land v 0xFF) by congruence.
  clear Henc. unfold sample. rewrite E2, E1, E0.
  rewrite !land_255, !Z.shiftr_div_pow2 by lia.
  change (2 ^ 16) with 65536. change (2 ^ 8) with 256.
  assert (B2 : 0 <= (v / 65536) mod 256 < 256) by (apply Z.mod_pos_bound; lia).
  assert (B1 : 0 <= (v / 256) mod 256 < 256) by (apply Z.mod_pos_bound; lia).
  assert (B0 : 0 <= v mod 256 < 256) by (apply Z.mod_pos_bound; lia).
  rewrite sign_bit_of_byte by exact B2.
  change (2 ^ 23) with 8388608 in Hv.
  destruct (Z.ltb_spec ((v / 65536) mod 256) 128) as [Hs | Hs];
    rewrite int32_of_buffer_sum by lia; cbv zeta;
    change (2 ^ 31) with 2147483648; change (2 ^ 32) with 4294967296;
    match goal with |- context [?a <? ?b] => destruct (Z.ltb_spec a b) end;
    Z.div_mod_to_equations; lia.
Qed.

(** C7: on a datagram with the right terminator, a non-zero status byte
    of the rates (offset 10) ends the cycle before anything is decoded:
    the decoded rates and the local reading are as they were, the
    shared reading keeps its rates and its temperature and has its
    out-of-date flag set, and the only thing logged is the warning.  A
    zero one with a non-zero temperature status byte (offset 17)
    decodes the three channels, a channel carrying the signed 24-bit
    value [v] giving the rate [v / 16384], keeps them locally and
    publishes them with the flag cleared; the temperature is as it
    was, and the warning and one record with a NaN temperature are
    logged. *)
Theorem quality_bytes (d : list Z) (p : poller) (v0 v1 v2 : Z) :
  byte_at d 25 = 13 -> byte_at d 26 = 10 ->
  (byte_at d 10 <> 0 ->
     active_m FT_OK d p
     = ({| data := d; rate := rate p; gyro := gyro p;
           shared := {| reading := {| x := x (reading (shared p));
                                      y := y (reading (shared p));
                                      z := z (reading (shared p));
                                      out_of_date := 1 |};
                        temperature := temperature (shared p) |} |},
        [Warn_bad_quality (byte_at d 10)]))
  /\ (byte_at d 10 = 0 -> byte_at d 17 <> 0 ->
      - 2 ^ 23 <= v0 < 2 ^ 23 ->
      - 2 ^ 23 <= v1 < 2 ^ 23 ->
      - 2 ^ 23 <= v2 < 2 ^ 23 ->
      (byte_at d 1, byte_at d 2, byte_at d 3) = encode24 v0 ->
      (byte_at d 4, byte_at d 5, byte_at d 6) = encode24 v1 ->
      (byte_at d 7, byte_at d 8, byte_at d 9) = encode24 v2 ->
      let r0 := Fin (inject_Z v0 / 16384)%Q in
      let r1 := Fin (inject_Z v1 / 16384)%Q in
      let r2 := Fin (inject_Z v2 / 16384)%Q in
      active_m FT_OK d p
      = ({| data := d; rate := [r0; r1; r2];
            gyro := {| x := r0; y := r1; z := r2;
                       out_of_date := out_of_date (gyro p) |};
            shared := {| reading := {| x := r0; y := r1; z := r2;
                                       out_of_date := 0 |};
                         temperature := temperature (shared p) |} |},
         [Warn_bad_temperature (byte_at d 17); Csv r0 r1 r2 NaN])).
Proof.
  intros Hcr Hlf.
  assert (Hterm : negb (byte_at d (DATAGRAM_SIZE - 2) =? 13)
                  || negb (byte_at d (DATAGRAM_SIZE - 1) =? 10) = false).
  { change (DATAGRAM_SIZE - 2)%nat with 25%nat.
    change (DATAGRAM_SIZE - 1)%nat with 26%nat.
    rewrite Hcr, Hlf. reflexivity. }
  split.
  - intros Hq. unfold active_m. cbn [data rate gyro shared].
    rewrite Hterm.
    destruct (Z.eqb_spec (byte_at d 10) 0) as [E | _]; [ contradiction | ].
    reflexivity.
  - intros Hq Ht H0 H1 H2 E0 E1 E2 r0 r1 r2.
    pose proof (decode_rate_of_encoding v0 d 0 H0 E0) as D0.
    pose proof (decode_rate_of_encoding v1 d 1 H1 E1) as D1.
    pose proof (decode_rate_of_encoding v2 d 2 H2 E2) as D2.
    fold r0 in D0. fold r1 in D1. fold r2 in D2.
    unfold active_m. cbn [data rate gyro shared].
    rewrite Hterm, Hq.
    destruct (Z.eqb_spec (byte_at d 17) 0) as [E | _]; [ contradiction | ].
    cbn [Z.eqb negb map nth x y z]. rewrite D0, D1, D2. reflexivity.
Qed.

Lemma quality_bytes_witness :
  let bad_rate := datagram (0, 0, 1) (0, 0, 2) (0, 0, 3) 1 0 0 0 13 10 in
  let bad_temp := datagram (encode24 16384) (encode24 (-8192)) (encode24 3)
                    0 0 0 4 13 10 in
  let r1 := active_m FT_OK bad_rate tracking_poller in
  let r2 := active_m FT_OK bad_temp idle_poller in
  (out_of_date (reading (shared tracking_poller)) = 0
   /\ reading (shared (fst r1))
      = {| x := Fin 1; y := Fin 2; z := Fin 3; out_of_date := 1 |}
   /\ rate (fst r1) = rate tracking_poller
   /\ gyro (fst r1) = gyro tracking_poller
   /\ snd r1 = [Warn_bad_quality 1])
  /\ (out_of_date (reading (shared idle_poller)) = 1
      /\ reading (shared (fst r2))
         = {| x := Fin (inject_Z 16384 / 16384)%Q;
              y := Fin (inject_Z (-8192) / 16384)%Q;
              z := Fin (inject_Z 3 / 16384)%Q; out_of_date := 0 |}
      /\ temperature (shared (fst r2)) = Fin 20
      /\ snd r2 = [Warn_bad_temperature 4;
                   Csv (Fin (inject_Z 16384 / 16384)%Q)
                     (Fin (inject_Z (-8192) / 16384)%Q)
                     (Fin (inject_Z 3 / 16384)%Q) NaN]).
Proof.
  cbv zeta. split.
  - destruct (quality_bytes
                (datagram (0, 0, 1) (0, 0, 2) (0, 0, 3) 1 0 0 0 13 10)
                tracking_poller 0 0 0 eq_refl eq_refl) as (H & _).
    rewrite H; [ | vm_compute; discriminate ].
    repeat split.
  - destruct (quality_bytes
                (datagram (encode24 16384) (encode24 (-8192)) (encode24 3)
                   0 0 0 4 13 10)
                idle_poller 16384 (-8192) 3 eq_refl eq_refl) as (_ & H).
    rewrite H; try reflexivity;
      try (vm_compute; split; [ discriminate | reflexivity ]);
      try (vm_compute; discriminate).
    repeat split.
Defined.

End GyroFacts.

(** ** Decoding, beyond the round trip *)
Module DecodeFacts.
Import Mode Gyro Statements DoubleFacts GyroFacts.
Local Open Scope Z_scope.

Lemma byte_at_is_byte (d : list Z) (k : nat) :
  Forall is_byte d -> is_byte (byte_at d k).
Proof.
  intros H. unfold byte_at. revert k.
  induction H as [ | b d Hb Hd IH ]; intros [ | k ]; cbn;
    try (unfold is_byte; lia); auto.
Qed.

Ltac bytes_of_datagram :=
  cbv [datagram app fst snd DATAGRAM_IDENTIFIER];
  repeat (apply Forall_cons; [ unfold is_byte; lia | ]); apply Forall_nil.

Lemma sample_value (d : list Z) (ii : nat) :
  Forall is_byte d ->
  let b2 := byte_at d (1 + 3 * ii) in
  let b1 := byte_at d (2 + 3 * ii) in
  let b0 := byte_at d (3 + 3 * ii) in
  sample d ii
  = b0 + 256 * b1 + 65536 * b2 - (if b2 <? 128 then 0 else 16777216).
Proof.
  intros Hd b2 b1 b0.
  pose proof (byte_at_is_byte d (1 + 3 * ii) Hd) as H2.
  pose proof (byte_at_is_byte d (2 + 3 * ii) Hd) as H1.
  pose proof (byte_at_is_byte d (3 + 3 * ii) Hd) as H0.
  fold b2 in H2. fold b1 in H1. fold b0 in H0. unfold is_byte in *.
  unfold sample. fold b2 b1 b0.
  rewrite sign_bit_of_byte by exact H2.
  destruct (Z.ltb_spec b2 128);
    rewrite int32_of_buffer_sum by lia; cbv zeta;
    change (2 ^ 31) with 2147483648; change (2 ^ 32) with 4294967296;
    match goal with |- context [?a <? ?b] => destruct (Z.ltb_spec a b) end;
    lia.
Qed.

Lemma sample_in_range (d : list Z) (ii : nat) :
  Forall is_byte d -> - 8388608 <= sample d ii < 8388608.
Proof.
  intros Hd.
  pose proof (byte_at_is_byte d (1 + 3 * ii) Hd) as H2.
  pose proof (byte_at_is_byte d (2 + 3 * ii) Hd) as H1.
  pose proof (byte_at_is_byte d (3 + 3 * ii) Hd) as H0.
  rewrite (sample_value d ii Hd). cbv zeta. unfold is_byte in *.
  destruct (Z.ltb_spec (byte_at d (1 + 3 * ii)) 128); lia.
Qed.

(** Whatever bytes the datagram holds, the integer the poller forms
    for a channel is a signed 24-bit value, and it determines the three
    bytes it was formed from: they are its encoding, so distinct byte
    triples give distinct samples. *)
Theorem sample_range_and_bytes (d : list Z) (ii : nat) :
  Forall is_byte d ->
  - 2 ^ 23 <= sample d ii < 2 ^ 23
  /\ encode24 (sample d ii)
     = (byte_at d (1 + 3 * ii), byte_at d (2 + 3 * ii),
        byte_at d (3 + 3 * ii)).
Proof.
  intros Hd.
  pose proof (byte_at_is_byte d (1 + 3 * ii) Hd) as H2.
  pose proof (byte_at_is_byte d (2 + 3 * ii) Hd) as H1.
  pose proof (byte_at_is_byte d (3 + 3 * ii) Hd) as H0.
  rewrite (sample_value d ii Hd). cbv zeta. unfold is_byte in *.
  set (b2 := byte_at d (1 + 3 * ii)) in *.
  set (b1 := byte_at d (2 + 3 * ii)) in *.
  set (b0 := byte_at d (3 + 3 * ii)) in *.
  change (2 ^ 23) with 8388608.
  split.
  - destruct (Z.ltb_spec b2 128); lia.
  - unfold encode24. rewrite !land_255, !Z.shiftr_div_pow2 by lia.
    change (2 ^ 16) with 65536. change (2 ^ 8) with 256.
    destruct (Z.ltb_spec b2 128); repeat f_equal;
      Z.div_mod_to_equations; lia.
Qed.

Lemma sample_range_and_bytes_witness :
  let d := datagram (255, 0, 1) (0, 0, 2) (128, 0, 0) 0 0 0 0 13 10 in
  - 2 ^ 23 <= sample d 0 < 2 ^ 23
  /\ encode24 (sample d 0) = (255, 0, 1).
Proof.
  apply (sample_range_and_bytes
           (datagram (255, 0, 1) (0, 0, 2) (128, 0, 0) 0 0 0 0 13 10) 0).
  bytes_of_datagram.
Defined.

(** The rate decoded for a channel is finite and lies in
    [-512, 512): a signed 24-bit count over 16384. *)
Theorem decode_rate_bounds (d : list Z) (ii : nat) :
  Forall is_byte d ->
  exists q, decode_rate d ii = Fin q
            /\ (- (512) <= q)%Q /\ (q < 512)%Q
            /\ (q * 16384 == inject_Z (sample d ii))%Q.
Proof.
  intros Hd. destruct (sample_in_range d ii Hd) as (Hlo & Hhi).
  exists (inject_Z (sample d ii) / 16384)%Q. split; [ reflexivity | ].
  assert (Hlo' : -8388608 <= sample d ii) by lia. clear Hlo.
  rewrite Zle_Qle in Hlo'. rewrite Zlt_Qlt in Hhi.
  change (inject_Z (-8388608)) with (-8388608 # 1)%Q in Hlo'.
  change (inject_Z 8388608) with (8388608 # 1)%Q in Hhi.
  generalize dependent (inject_Z (sample d ii)). intros v Hhi Hlo.
  split; [ | split ].
  - apply Qle_shift_div_l; [ reflexivity | ]. lra.
  - apply Qlt_shift_div_r; [ reflexivity | ]. lra.
  - field.
Qed.

Lemma decode_rate_bounds_witness :
  let d := datagram (255, 0, 1) (0, 0, 2) (128, 0, 0) 0 0 0 0 13 10 in
  exists q, decode_rate d 2 = Fin q
            /\ (- (512) <= q)%Q /\ (q < 512)%Q
            /\ (q * 16384 == inject_Z (sample d 2))%Q.
Proof.
  apply (decode_rate_bounds
           (datagram (255, 0, 1) (0, 0, 2) (128, 0, 0) 0 0 0 0 13 10) 2).
  bytes_of_datagram.
Defined.

(** *** Temperature *)

Lemma int16_of_buffer_sum (b0 b1 : Z) :
  0 <= b0 < 256 -> 0 <= b1 < 256 ->
  int16_of_buffer b0 b1
  = b0 + 256 * b1 - (if b1 <? 128 then 0 else 65536).
Proof.
  intros H0 H1. unfold int16_of_buffer.
  rewrite lor_shiftl_byte by exact H0. cbv zeta.
  change (2 ^ 15) with 32768. change (2 ^ 16) with 65536.
  destruct (Z.ltb_spec (b0 + 256 * b1) 32768), (Z.ltb_spec b1 128); lia.
Qed.

(** The temperature bytes are read as a signed 16-bit value, most
    significant byte at offset 11: every value in [-2^15, 2^15) sent
    that way is recovered and is scaled by 1/256, and whatever the two
    bytes are the decoded temperature is finite and lies in
    [-128, 128). *)
Theorem decode_temp_bounds (d : list Z) :
  Forall is_byte d ->
  (forall t, - 2 ^ 15 <= t < 2 ^ 15 ->
             (byte_at d 11, byte_at d 12) = encode16 t ->
             decode_temp d = Fin (inject_Z t / 256))
  /\ exists q, decode_temp d = Fin q /\ (- (128) <= q)%Q /\ (q < 128)%Q.
Proof.
  intros Hd.
  pose proof (byte_at_is_byte d 11 Hd) as H1.
  pose proof (byte_at_is_byte d 12 Hd) as H0.
  unfold is_byte in *.
  assert (E : decode_temp d
              = Fin (inject_Z (int16_of_buffer (byte_at d 12) (byte_at d 11))
                     / 256)) by reflexivity.
  rewrite E, (int16_of_buffer_sum _ _ H0 H1).
  split.
  - intros t Ht Henc. unfold encode16 in Henc.
    assert (E1 : byte_at d 11 = Z.land (Z.shiftr t 8) 0xFF) by congruence.
    assert (E0 : byte_at d 12 = Z.land t 0xFF) by congruence.
    rewrite land_255, Z.shiftr_div_pow2 in E1 by lia. rewrite land_255 in E0.
    change (2 ^ 8) with 256 in E1. change (2 ^ 15) with 32768 in Ht.
    do 3 f_equal.
    destruct (Z.ltb_spec (byte_at d 11) 128);
      Z.div_mod_to_equations; lia.
  - eexists. split; [ reflexivity | ].
    set (v := byte_at d 12 + 256 * byte_at d 11
              - (if byte_at d 11 <? 128 then 0 else 65536)).
    assert (Hv : -32768 <= v < 32768)
      by (subst v; destruct (Z.ltb_spec (byte_at d 11) 128); lia).
    destruct Hv as (Hlo & Hhi).
    rewrite Zle_Qle in Hlo. rewrite Zlt_Qlt in Hhi.
    change (inject_Z (-32768)) with (-32768 # 1)%Q in Hlo.
    change (inject_Z 32768) with (32768 # 1)%Q in Hhi.
    generalize dependent (inject_Z v). intros q Hlo Hhi.
    split.
    + apply Qle_shift_div_l; [ reflexivity | ]. lra.
    + apply Qlt_shift_div_r; [ reflexivity | ]. lra.
Qed.

Lemma decode_temp_bounds_witness :
  let d := datagram (0, 0, 1) (0, 0, 2) (0, 0, 3) 0 255 128 0 13 10 in
  decode_temp d = Fin (inject_Z (-128) / 256).
Proof.
  destruct (decode_temp_bounds
              (datagram (0, 0, 1) (0, 0, 2) (0, 0, 3) 0 255 128 0 13 10))
    as (H & _).
  - bytes_of_datagram.
  - apply (H (-128)); [ change (2 ^ 15) with 32768; lia | reflexivity ].
Defined.

(** *** The outcomes of a sampling cycle *)

(** A failed read of the datagram leaves the shared reading, the local
    reading and the decoded rates as they were, whatever the buffer
    holds, and logs the failure.  A cycle whose read succeeded on a
    datagram with the right terminator and a zero rate status byte
    publishes the three decoded rates with the out-of-date flag
    cleared, keeps them in the local reading, and logs one record; the
    temperature is published and logged when its status byte is zero,
    and otherwise kept and logged as NaN after a warning. *)
Theorem active_m_outcomes (d : list Z) (p : poller) :
  (forall code,
      active_m (FT_ERROR code) d p
      = ({| data := d; rate := rate p; gyro := gyro p; shared := shared p |},
         [Warn_read_failed code]))
  /\ (byte_at d 25 = 13 -> byte_at d 26 = 10 -> byte_at d 10 = 0 ->
      let r := active_m FT_OK d p in
      let rx := decode_rate d 0 in
      let ry := decode_rate d 1 in
      let rz := decode_rate d 2 in
      reading (shared (fst r))
      = {| x := rx; y := ry; z := rz; out_of_date := 0 |}
      /\ rate (fst r) = [rx; ry; rz]
      /\ (x (gyro (fst r)), y (gyro (fst r)), z (gyro (fst r))) = (rx, ry, rz)
      /\ (byte_at d 17 = 0 ->
          temperature (shared (fst r)) = decode_temp d
          /\ snd r = [Csv rx ry rz (decode_temp d)])
      /\ (byte_at d 17 <> 0 ->
          temperature (shared (fst r)) = temperature (shared p)
          /\ snd r = [Warn_bad_temperature (byte_at d 17);
                      Csv rx ry rz NaN])).
Proof.
  split; [ reflexivity | ].
  intros Hcr Hlf Hq r rx ry rz. subst r.
  unfold active_m. cbn [data DATAGRAM_SIZE Nat.sub].
  rewrite Hcr, Hlf, Hq. cbn [Z.eqb Pos.eqb negb orb].
  destruct (Z.eqb_spec (byte_at d 17) 0) as [Ht | Ht];
    cbn [fst snd shared rate gyro reading temperature set_gyro set_gyro_temp
         x y z out_of_date map nth];
    fold rx ry rz;
    (split; [ reflexivity | split; [ reflexivity | split; [ reflexivity | ] ] ]);
    split; intros Ht'; try contradiction; split; reflexivity.
Qed.

Lemma active_m_outcomes_witness :
  let d := datagram (0, 64, 0) (255, 192, 0) (0, 0, 3) 0 10 128 0 13 10 in
  let r := active_m FT_OK d idle_poller in
  reading (shared (fst r))
  = {| x := decode_rate d 0; y := decode_rate d 1; z := decode_rate d 2;
       out_of_date := 0 |}
  /\ temperature (shared (fst r)) = decode_temp d.
Proof.
  destruct (active_m_outcomes
              (datagram (0, 64, 0) (255, 192, 0) (0, 0, 3) 0 10 128 0 13 10)
              idle_poller) as (_ & H).
  destruct H as (Hr & _ & _ & Ht & _); try reflexivity.
  split; [ exact Hr | ]. apply Ht. reflexivity.
Defined.

End DecodeFacts.

(** ** Set-up of the gyroscope poller *)
Module GyroInitFacts.
Import GyroInit.
Local Open Scope Z_scope.

(** [init_gyroscope_poller] stops at the first call that fails: the
    calls it makes are always an initial part of the full set-up, in
    order.  The poller thread is created exactly when the log file,
    both GPIO calls and the four FTDI calls all succeeded, and then
    the answer of [create_thread] is what is returned; the trigger pin
    is driven high exactly when the log file and both GPIO calls
    succeeded.  At the first failing call the function returns [errno]
    for the log file, the call's own answer for a GPIO call and
    [FAILURE] for an FTDI call, having made no call after it. *)
Theorem init_gyroscope_poller_stops_at_first_failure
    (SUCCESS FAILURE FT_OK : Z) (e : init_env) :
  let r := init_gyroscope_poller SUCCESS FAILURE FT_OK e in
  let ok := all_ok SUCCESS FT_OK e in
  (exists rest, full_setup = snd r ++ rest)
  /\ (In (Call_create_thread 40) (snd r) <-> ok)
  /\ (ok -> r = (create_thread_ret e, full_setup))
  /\ (In Call_gpio_write_high (snd r)
      <-> gyro_log_is_NULL e = false /\ gpio_export_ret e = SUCCESS
          /\ gpio_direction_ret e = SUCCESS)
  /\ (gyro_log_is_NULL e = true -> r = (errno e, firstn 1 full_setup))
  /\ (gyro_log_is_NULL e = false -> gpio_export_ret e <> SUCCESS ->
      r = (gpio_export_ret e, firstn 2 full_setup))
  /\ (gyro_log_is_NULL e = false -> gpio_export_ret e = SUCCESS ->
      gpio_direction_ret e <> SUCCESS ->
      r = (gpio_direction_ret e, firstn 3 full_setup))
  /\ (gyro_log_is_NULL e = false -> gpio_export_ret e = SUCCESS ->
      gpio_direction_ret e = SUCCESS ->
      (FT_OpenEx_stat e <> FT_OK -> r = (FAILURE, firstn 5 full_setup))
      /\ (FT_OpenEx_stat e = FT_OK -> FT_SetBaudRate_stat e <> FT_OK ->
          r = (FAILURE, firstn 6 full_setup))
      /\ (FT_OpenEx_stat e = FT_OK -> FT_SetBaudRate_stat e = FT_OK ->
          FT_SetTimeouts_stat e <> FT_OK ->
          r = (FAILURE, firstn 7 full_setup))
      /\ (FT_OpenEx_stat e = FT_OK -> FT_SetBaudRate_stat e = FT_OK ->
          FT_SetTimeouts_stat e = FT_OK ->
          FT_SetLatencyTimer_stat e <> FT_OK ->
          r = (FAILURE, firstn 8 full_setup))).
Proof.
  destruct e as [fo en ge gd s1 s2 s3 s4 ct].
  unfold init_gyroscope_poller, all_ok, full_setup.
  cbn [gyro_log_is_NULL errno gpio_export_ret gpio_direction_ret
       FT_OpenEx_stat FT_SetBaudRate_stat FT_SetTimeouts_stat
       FT_SetLatencyTimer_stat create_thread_ret firstn].
  destruct fo;
    [ | destruct (Z.eqb_spec ge SUCCESS);
        [ destruct (Z.eqb_spec gd SUCCESS);
          [ destruct (Z.eqb_spec s1 FT_OK);
            [ destruct (Z.eqb_spec s2 FT_OK);
              [ destruct (Z.eqb_spec s3 FT_OK);
                [ destruct (Z.eqb_spec s4 FT_OK) | ] | ] | ] | ] | ] ];
    cbn [negb app fst snd];
    (split; [ eexists; reflexivity | ]);
    repeat match goal with
           | |- _ /\ _ => split
           | |- _ <-> _ => split
           | |- _ -> _ => intros
           end;
    repeat match goal with
           | H : _ /\ _ |- _ => destruct H
           | H : In _ _ |- _ => cbn in H
           | H : _ \/ _ |- _ => destruct H
           | H : False |- _ => contradiction
           end;
    try discriminate; try congruence; try contradiction; cbn; auto 12.
Qed.

End GyroInitFacts.
